(** * pokett-mobile: form validation, response handling, month grouping
      and the ledger rules of the specification.

    The TypeScript sources are embedded shallowly: React state is a record,
    a handler is a function from the state before the call to the state
    after it together with the callback invocation it emits, promises are
    values of a sum type (resolved or rejected), and host built-ins
    (String.prototype.trim, Number, Date) are written out or taken as
    parameters of a section. *)

From Stdlib Require Import ZArith NArith List Ascii String Bool Lia.
From Stdlib Require Import Permutation Sorted.
From stdpp Require Import gmap strings list fin_maps pretty.

Set Warnings "-register-all,-clear-no-such-hyp".

Open Scope string_scope.

(** ** ECMAScript string built-ins used by the forms *)

Module JS.

(** Strings are sequences of code units; the model keeps the code units
    below 256, where WhiteSpace and LineTerminator are TAB, LF, VT, FF,
    CR, SP and NBSP. *)
Definition isWhiteSpace (c : ascii) : bool :=
  let n := nat_of_ascii c in
  (Nat.eqb n 9 || Nat.eqb n 10 || Nat.eqb n 11 || Nat.eqb n 12
   || Nat.eqb n 13 || Nat.eqb n 32 || Nat.eqb n 160)%bool.

Fixpoint trimStartL (l : list ascii) : list ascii :=
  match l with
  | [] => []
  | c :: l' => if isWhiteSpace c then trimStartL l' else l
  end.

Definition trimL (l : list ascii) : list ascii :=
  rev (trimStartL (rev (trimStartL l))).

(** [s.trim()] *)
Definition trim (s : string) : string :=
  string_of_list_ascii (trimL (list_ascii_of_string s)).

(** ToBoolean on a string: the empty string is the only falsy one. *)
Definition truthy (s : string) : bool :=
  match s with EmptyString => false | String _ _ => true end.

Fixpoint startsWithL (p l : list ascii) : bool :=
  match p, l with
  | [], _ => true
  | _ :: _, [] => false
  | a :: p', b :: l' => if Ascii.eqb a b then startsWithL p' l' else false
  end.

Fixpoint includesL (p l : list ascii) : bool :=
  if startsWithL p l then true
  else match l with
       | [] => false
       | _ :: l' => includesL p l'
       end.

(** [s.includes(p)] *)
Definition includes (s p : string) : bool :=
  includesL (list_ascii_of_string p) (list_ascii_of_string s).

(** The Number type, as far as the forms need it: NaN, the infinities and
    the finite decimal [(-1)^neg * mant * 10^exp10] denoted by a numeric
    literal (its rounding to binary64 is not modelled). *)
Inductive number : Type :=
| NaN
| Infinite (neg : bool)
| Finite (neg : bool) (mant : N) (exp10 : Z).

Definition isNaN (x : number) : bool :=
  match x with NaN => true | _ => false end.

Definition digitVal (base : N) (c : ascii) : option N :=
  let n := N_of_ascii c in
  let v :=
    if (48 <=? n)%N && (n <=? 57)%N then Some (n - 48)%N
    else if (97 <=? n)%N && (n <=? 102)%N then Some (n - 87)%N
    else if (65 <=? n)%N && (n <=? 70)%N then Some (n - 55)%N
    else None in
  match v with
  | Some d => if (d <? base)%N then Some d else None
  | None => None
  end.

(** Longest prefix of digits of the base, and what follows it. *)
Fixpoint spanDigits (base : N) (l : list ascii) : list N * list ascii :=
  match l with
  | [] => ([], [])
  | c :: l' =>
      match digitVal base c with
      | Some d => let '(ds, r) := spanDigits base l' in (d :: ds, r)
      | None => ([], l)
      end
  end.

Definition digitsValue (base : N) (ds : list N) : N :=
  fold_left (fun acc d => (acc * base + d)%N) ds 0%N.

Definition isNil {A} (l : list A) : bool :=
  match l with [] => true | _ => false end.

(** ExponentPart, optional: [None] when the rest is not an exponent. *)
Definition parseExponent (r : list ascii) : option Z :=
  match r with
  | [] => Some 0%Z
  | c :: r1 =>
      if Ascii.eqb c "e" || Ascii.eqb c "E" then
        let '(neg, r2) :=
          match r1 with
          | s :: r2 =>
              if Ascii.eqb s "-" then (true, r2)
              else if Ascii.eqb s "+" then (false, r2)
              else (false, r1)
          | [] => (false, r1)
          end in
        let '(ds, r3) := spanDigits 10 r2 in
        if isNil ds || negb (isNil r3) then None
        else
          let e := Z.of_N (digitsValue 10 ds) in
          Some (if neg then (- e)%Z else e)
      else None
  end.

(** StrUnsignedDecimalLiteral without Infinity: mantissa and exponent. *)
Definition parseUnsignedDecimal (l : list ascii) : option (N * Z) :=
  let '(ip, r1) := spanDigits 10 l in
  match r1 with
  | c :: r2 =>
      if Ascii.eqb c "." then
        let '(fp, r3) := spanDigits 10 r2 in
        if isNil ip && isNil fp then None
        else
          match parseExponent r3 with
          | Some e =>
              Some (digitsValue 10 (ip ++ fp)%list,
                    (e - Z.of_nat (length fp))%Z)
          | None => None
          end
      else if isNil ip then None
      else
        match parseExponent r1 with
        | Some e => Some (digitsValue 10 ip, e)
        | None => None
        end
  | [] => if isNil ip then None else Some (digitsValue 10 ip, 0%Z)
  end.

Definition parseRadix (base : N) (l : list ascii) : number :=
  let '(ds, r) := spanDigits base l in
  if isNil ds || negb (isNil r) then NaN
  else Finite false (digitsValue base ds) 0.

Definition parseSignless (neg : bool) (l : list ascii) : number :=
  if String.eqb (string_of_list_ascii l) "Infinity" then Infinite neg
  else
    match parseUnsignedDecimal l with
    | Some (m, e) => Finite neg m e
    | None => NaN
    end.

(** StringToNumber on the trimmed text. *)
Definition stringToNumberL (l : list ascii) : number :=
  match l with
  | [] => Finite false 0 0
  | c :: r =>
      if Ascii.eqb c "+" then parseSignless false r
      else if Ascii.eqb c "-" then parseSignless true r
      else
        match r with
        | k :: r' =>
            if Ascii.eqb c "0" && (Ascii.eqb k "x" || Ascii.eqb k "X")
            then parseRadix 16 r'
            else if Ascii.eqb c "0" && (Ascii.eqb k "o" || Ascii.eqb k "O")
            then parseRadix 8 r'
            else if Ascii.eqb c "0" && (Ascii.eqb k "b" || Ascii.eqb k "B")
            then parseRadix 2 r'
            else parseSignless false l
        | [] => parseSignless false l
        end
  end.

(** [Number(s)] for a string argument. *)
Definition Number (s : string) : number :=
  stringToNumberL (trimL (list_ascii_of_string s)).

(** Lower case of a code unit below 256: A to Z, and the capital letters
    of Latin-1 (U+00C0 to U+00DE without the multiplication sign), move
    up by 32. *)
Definition toLowerChar (c : ascii) : ascii :=
  let n := nat_of_ascii c in
  if ((65 <=? n) && (n <=? 90)
      || (192 <=? n) && (n <=? 222) && negb (n =? 215))%nat
  then ascii_of_nat (n + 32)
  else c.

(** [s.toLowerCase()] *)
Definition toLowerCase (s : string) : string :=
  string_of_list_ascii (map toLowerChar (list_ascii_of_string s)).

(** [array.includes(x)] on an array of strings. *)
Definition arrayIncludes (l : list string) (x : string) : bool :=
  existsb (String.eqb x) l.

End JS.

(** ** app/types/member.ts

    The file is not among the sources; the components read these two
    fields of a member. *)

Record Member : Type := mkMember {
  member_id : string;
  member_name : string
}.

(** ** components/CreateGroupModal.tsx *)

Module CreateGroupModal.

(** The pieces of component state that [handleSubmit] reads or writes. *)
Record State : Type := mkState {
  name : string;
  selectedMembers : list string;
  error : option string;
  searchQuery : string;
  showSuggestions : bool
}.

(** An invocation of the [onSubmit] prop. *)
Record Call : Type := mkCall {
  call_name : string;
  call_members : list string
}.

Definition setError (e : option string) (st : State) : State :=
  mkState (name st) (selectedMembers st) e (searchQuery st)
          (showSuggestions st).

Definition setName (n : string) (st : State) : State :=
  mkState n (selectedMembers st) (error st) (searchQuery st)
          (showSuggestions st).

Definition setSelectedMembers (ms : list string) (st : State) : State :=
  mkState (name st) ms (error st) (searchQuery st)
          (showSuggestions st).

(** [handleSubmit]: the state after the handler and the [onSubmit] call it
    made, if any. *)
Definition handleSubmit (st : State) : State * option Call :=
  if negb (JS.truthy (JS.trim (name st))) then
    (setError (Some "Please enter a group name") st, None)
  else if (length (selectedMembers st) <? 2)%nat then
    (setError (Some "Please add at least 2 members") st, None)
  else
    (setError None (setSelectedMembers [] (setName "" st)),
     Some (mkCall (JS.trim (name st)) (selectedMembers st))).

(** The handler wired to a parent component whose state is [Parent]. *)
Definition press {Parent : Type}
    (onSubmit : string -> list string -> Parent -> Parent)
    (st : State) (parent : Parent) : State * Parent :=
  match handleSubmit st with
  | (st', Some c) => (st', onSubmit (call_name c) (call_members c) parent)
  | (st', None) => (st', parent)
  end.

Definition setSearchQuery (q : string) (st : State) : State :=
  mkState (name st) (selectedMembers st) (error st) q (showSuggestions st).

Definition setShowSuggestions (b : bool) (st : State) : State :=
  mkState (name st) (selectedMembers st) (error st) (searchQuery st) b.

(** [handleRemoveMember] *)
Definition handleRemoveMember (memberToRemove : string) (st : State) : State :=
  setSelectedMembers
    (filter (fun member => member <> memberToRemove) (selectedMembers st)) st.

(** [handleSelectMember] *)
Definition handleSelectMember (member : Member) (st : State) : State :=
  let st1 :=
    if negb (JS.arrayIncludes (selectedMembers st) (member_name member))
    then setSelectedMembers
           (selectedMembers st ++ [member_name member])%list st
    else st in
  setShowSuggestions false (setSearchQuery "" st1).

(** The form together with the member directory the modal keeps. *)
Record Modal : Type := mkModal {
  form : State;
  allMembers : list Member;
  suggestions : list Member
}.

(** [fetchMembers]; the response is [Some data] when [api.members.getAll]
    resolves and [None] when it rejects (the rejection is only logged). *)
Definition fetchMembers (response : option (list Member)) (m : Modal)
  : Modal :=
  match response with
  | Some data => mkModal (form m) data (suggestions m)
  | None => m
  end.

(** [handleCreateMember]; [create] stands for [api.members.create]:
    [Some newMember] when the call resolves, [None] when it rejects. *)
Definition handleCreateMember (create : string -> option Member)
    (name : string) (m : Modal) : Modal :=
  match create name with
  | Some newMember =>
      mkModal
        (setShowSuggestions false
           (setSearchQuery ""
              (setSelectedMembers
                 (selectedMembers (form m) ++ [member_name newMember])%list
                 (form m))))
        (allMembers m ++ [newMember])%list
        (suggestions m)
  | None =>
      mkModal
        (setError (Some "Failed to create member. Please try again.")
                  (form m))
        (allMembers m) (suggestions m)
  end.

(** The member's name contains the query, both in lower case. *)
Definition matchesQuery (query : string) (member : Member) : bool :=
  JS.includes (JS.toLowerCase (member_name member)) (JS.toLowerCase query).

(** The effect on [searchQuery] and [allMembers]. *)
Definition searchEffect (m : Modal) : Modal :=
  if JS.truthy (JS.trim (searchQuery (form m))) then
    mkModal (setShowSuggestions true (form m)) (allMembers m)
            (List.filter (matchesQuery (searchQuery (form m))) (allMembers m))
  else
    mkModal (setShowSuggestions false (form m)) (allMembers m) [].

(** [onChangeText] of the search input, followed by the effect it
    triggers. *)
Definition changeSearchQuery (q : string) (m : Modal) : Modal :=
  searchEffect (mkModal (setSearchQuery q (form m)) (allMembers m)
                        (suggestions m)).

(** [onFocus] of the search input. *)
Definition focusSearch (m : Modal) : Modal :=
  mkModal (setShowSuggestions true (form m)) (allMembers m) (suggestions m).

(** The suggestion list is rendered while [showSuggestions] holds, and
    shows its [ListEmptyComponent], the row that creates a member named
    by the query, when there is no suggestion. *)
Definition createRowShown (m : Modal) : bool :=
  showSuggestions (form m) && JS.isNil (suggestions m).

(** A press on that row: [handleCreateMember(searchQuery)]. *)
Definition pressCreateRow (create : string -> option Member) (m : Modal)
  : Modal :=
  handleCreateMember create (searchQuery (form m)) m.

End CreateGroupModal.

(** ** components/AddExpenseModal.tsx *)

Module AddExpenseModal.

Record State : Type := mkState {
  description : string;
  amount : string;
  paidBy : string;
  selectedMembers : list string;
  error : option string;
  showPaidByDropdown : bool
}.

(** An invocation of the [onSubmit] prop. *)
Record Call : Type := mkCall {
  call_description : string;
  call_amount : JS.number;
  call_paidBy : string;
  call_splitBetween : list string
}.

Definition setError (e : option string) (st : State) : State :=
  mkState (description st) (amount st) (paidBy st) (selectedMembers st) e
          (showPaidByDropdown st).

(** The four setters of the success path, applied together. *)
Definition clearFields (st : State) : State :=
  mkState "" "" "" [] None (showPaidByDropdown st).

Definition handleSubmit (st : State) : State * option Call :=
  if negb (JS.truthy (JS.trim (description st))) then
    (setError (Some "Please enter a description") st, None)
  else if negb (JS.truthy (JS.trim (amount st)))
          || JS.isNaN (JS.Number (amount st)) then
    (setError (Some "Please enter a valid amount") st, None)
  else if negb (JS.truthy (JS.trim (paidBy st))) then
    (setError (Some "Please select who paid") st, None)
  else if (length (selectedMembers st) =? 0)%nat then
    (setError (Some "Please select at least one member to split with") st,
     None)
  else
    (clearFields st,
     Some (mkCall (JS.trim (description st)) (JS.Number (amount st))
                  (JS.trim (paidBy st)) (selectedMembers st))).

(** The handler wired to a parent component whose state is [Parent] (in
    the app: the group screen holding the group and its expense list). *)
Definition press {Parent : Type}
    (onSubmit : string -> JS.number -> string -> list string
                -> Parent -> Parent)
    (st : State) (parent : Parent) : State * Parent :=
  match handleSubmit st with
  | (st', Some c) =>
      (st', onSubmit (call_description c) (call_amount c) (call_paidBy c)
                     (call_splitBetween c) parent)
  | (st', None) => (st', parent)
  end.

Definition setDescription (d : string) (st : State) : State :=
  mkState d (amount st) (paidBy st) (selectedMembers st) (error st)
          (showPaidByDropdown st).

Definition setAmount (a : string) (st : State) : State :=
  mkState (description st) a (paidBy st) (selectedMembers st) (error st)
          (showPaidByDropdown st).

Definition setPaidBy (p : string) (st : State) : State :=
  mkState (description st) (amount st) p (selectedMembers st) (error st)
          (showPaidByDropdown st).

Definition setSelectedMembers (ms : list string) (st : State) : State :=
  mkState (description st) (amount st) (paidBy st) ms (error st)
          (showPaidByDropdown st).

Definition setShowPaidByDropdown (b : bool) (st : State) : State :=
  mkState (description st) (amount st) (paidBy st) (selectedMembers st)
          (error st) b.

(** The state of a freshly mounted modal. *)
Definition initial : State := mkState "" "" "" [] None false.

(** The effect on [visible] and [members]: all members are selected when
    the modal is shown. *)
Definition visibleEffect (visible : bool) (members : list string)
    (st : State) : State :=
  if visible then setSelectedMembers members st else st.

(** [handleToggleMember] *)
Definition handleToggleMember (member : string) (st : State) : State :=
  setSelectedMembers
    (if JS.arrayIncludes (selectedMembers st) member
     then filter (fun m => m <> member) (selectedMembers st)
     else (selectedMembers st ++ [member])%list)
    st.

(** What the user can do to the shown modal. *)
Inductive Event : Type :=
| Shown                               (* the effect runs, visible is true *)
| ChangeDescription (text : string)   (* onChangeText={setDescription} *)
| ChangeAmount (text : string)        (* onChangeText={setAmount} *)
| PressPaidBy                         (* opens or closes the dropdown *)
| PickPayer (member : string)         (* a row of the dropdown *)
| ToggleMember (member : string)      (* a row of the split list *)
| PressSubmit.

(** The dropdown rows and the split rows are the group's members; the
    dropdown rows exist while the dropdown is open. *)
Definition offered (members : list string) (st : State) (e : Event) : Prop :=
  match e with
  | PickPayer member => showPaidByDropdown st = true /\ member ∈ members
  | ToggleMember member => member ∈ members
  | _ => True
  end.

Definition step (members : list string) (e : Event) (st : State)
  : State * option Call :=
  match e with
  | Shown => (visibleEffect true members st, None)
  | ChangeDescription text => (setDescription text st, None)
  | ChangeAmount text => (setAmount text st, None)
  | PressPaidBy =>
      (setShowPaidByDropdown (negb (showPaidByDropdown st)) st, None)
  | PickPayer member =>
      (setShowPaidByDropdown false (setPaidBy member st), None)
  | ToggleMember member => (handleToggleMember member st, None)
  | PressSubmit => handleSubmit st
  end.

(** The states the modal can be in for a group with these members. *)
Inductive reachable (members : list string) : State -> Prop :=
| reachable_initial : reachable members initial
| reachable_step e st :
    reachable members st -> offered members st e ->
    reachable members (fst (step members e st)).

End AddExpenseModal.

(** ** app/services/api.ts *)

Module Api.

(** A parsed JSON value.  An object is the list of its own properties in
    creation order; a parsed object has each key once. *)
Inductive json : Type :=
| JNull
| JBool (b : bool)
| JNum (n : JS.number)
| JStr (s : string)
| JArr (items : list json)
| JObj (fields : list (string * json)).

(** What the handler reads of a fetch [Response]: the status, the
    content-type header ([None] when [headers.get] returns null) and the
    outcome of [response.json()] ([None] when that promise rejects). *)
Record Response : Type := mkResponse {
  status : Z;
  contentType : option string;
  jsonBody : option json
}.

(** [response.ok]: the status is in the range 200 to 299. *)
Definition ok (r : Response) : bool :=
  ((200 <=? status r) && (status r <=? 299))%Z.

Inductive thrown : Type :=
| Error_ (message : json)     (* new Error(message) *)
| TypeError_                  (* property read on null *)
| JsonRejected.               (* the rejection of response.json() *)

(** A settled promise. *)
Inductive settled (T : Type) : Type :=
| Rejected (e : thrown)
| Resolved (v : T).
Arguments Rejected {T} e.
Arguments Resolved {T} v.

Fixpoint getField (k : string) (fs : list (string * json)) : option json :=
  match fs with
  | [] => None
  | (k', v) :: fs' => if String.eqb k' k then Some v else getField k fs'
  end.

(** ToBoolean. *)
Definition truthy (v : json) : bool :=
  match v with
  | JNull => false
  | JBool b => b
  | JNum JS.NaN => false
  | JNum (JS.Finite _ m _) => negb (m =? 0)%N
  | JNum (JS.Infinite _) => true
  | JStr s => JS.truthy s
  | JArr _ => true
  | JObj _ => true
  end.

Definition emptyObject : json := JObj [].

Definition handleResponse (response : Response) : settled json :=
  if negb (ok response) then
    let error :=
      match jsonBody response with
      | Some j => j
      | None => emptyObject
      end in
    match error with
    | JNull => Rejected TypeError_
    | JObj fs =>
        match getField "message" fs with
        | Some m =>
            Rejected (Error_ (if truthy m then m
                              else JStr "Something went wrong"))
        | None => Rejected (Error_ (JStr "Something went wrong"))
        end
    | _ => Rejected (Error_ (JStr "Something went wrong"))
    end
  else if (status response =? 204)%Z then Resolved emptyObject
  else
    match contentType response with
    | Some ct =>
        if JS.truthy ct && JS.includes ct "application/json" then
          match jsonBody response with
          | Some j => Resolved j
          | None => Rejected JsonRejected
          end
        else Resolved emptyObject
    | None => Resolved emptyObject
    end.

End Api.

(** ** app/services/api.ts, the version without the guards for empty
    responses *)

Module ApiV1.

Inductive thrown : Type :=
| ApiError (status : Z) (message : string)  (* new ApiError(status, message) *)
| JsonRejected.                       (* the rejection of response.json() *)

(** [handleResponse] of that version: a settled promise, rejected on the
    left. *)
Definition handleResponse (response : Api.Response) : thrown + Api.json :=
  if negb (Api.ok response) then
    inl (ApiError (Api.status response)
                  ("HTTP error! status: " +:+ pretty (Api.status response)))
  else
    match Api.jsonBody response with
    | Some j => inr j
    | None => inl JsonRejected
    end.

End ApiV1.

(** ** app/types/expense.ts and app/group/[id].tsx *)

Inductive ExpenseType : Type := expense | settlement.

Record Expense : Type := mkExpense {
  _id : string;
  id : string;
  groupId : string;
  description : string;
  amount : JS.number;
  paidBy : string;
  splitBetween : list string;
  createdAt : string;
  type : ExpenseType
}.

Module GroupDetail.

(** [GroupedExpenses]: an object with string keys, as the list of its
    entries in property creation order (the order [Object.entries]
    follows for keys that are not array indices). *)
Definition GroupedExpenses : Type := list (string * list Expense).

(** [if (!groups[k]) groups[k] = []; groups[k].push(e)].  A month key is
    a formatted date, never the name of a property that an empty object
    inherits, so [groups[k]] is undefined until the key is created. *)
Fixpoint pushTo (k : string) (e : Expense) (groups : GroupedExpenses)
  : GroupedExpenses :=
  match groups with
  | [] => [(k, [e])]
  | (k', es) :: rest =>
      if String.eqb k' k then (k', (es ++ [e])%list) :: rest
      else (k', es) :: pushTo k e rest
  end.

(** Stable sort by a comparison: [Array.prototype.sort] on a comparator
    reduced to "a may stay before b". *)
Fixpoint insertBy {A} (le : A -> A -> bool) (x : A) (l : list A) : list A :=
  match l with
  | [] => [x]
  | y :: l' => if le x y then x :: l else y :: insertBy le x l'
  end.

Definition sortBy {A} (le : A -> A -> bool) (l : list A) : list A :=
  fold_right (insertBy le) [] l.

Section Host.

(** [new Date(createdAt).toLocaleString('default',
    { month: 'long', year: 'numeric' })] *)
Variable monthKey : string -> string.

(** [new Date(key).getTime()]; [None] is NaN (Invalid Date). *)
Variable getTime : string -> option Z.

Definition groupExpensesByMonth (expenses : list Expense)
  : GroupedExpenses :=
  fold_left (fun groups e => pushTo (monthKey (createdAt e)) e groups)
            expenses [].

(** [(a, b) => new Date(b[0]).getTime() - new Date(a[0]).getTime()];
    [None] is a NaN difference. *)
Definition compareEntries (a b : string * list Expense) : option Z :=
  match getTime (fst b), getTime (fst a) with
  | Some tb, Some ta => Some (tb - ta)%Z
  | _, _ => None
  end.

(** SortCompare: a NaN result of the comparator counts as +0. *)
Definition entryLe (a b : string * list Expense) : bool :=
  match compareEntries a b with
  | Some v => (v <=? 0)%Z
  | None => true
  end.

(** [Object.entries(groupExpensesByMonth(expenses)).sort(...)]: the
    month sections in the order the screen renders them. *)
Definition monthSections (expenses : list Expense) : GroupedExpenses :=
  sortBy entryLe (groupExpensesByMonth expenses).

(** The "Expenses" block of the screen: the count of the header, then
    either the "No expenses yet" text or the month sections. *)
Inductive ExpensesBlock : Type :=
| NoExpensesYet (count : nat)
| MonthSections (count : nat) (sections : GroupedExpenses).

Definition expensesBlock (expenses : list Expense) : ExpensesBlock :=
  if (length expenses =? 0)%nat then NoExpensesYet (length expenses)
  else MonthSections (length expenses) (monthSections expenses).

End Host.

End GroupDetail.

(** ** Promises of the API client, as the screens see them *)

(** A settled API call: the value it resolved to, or what it rejected
    with, reduced to what the catch blocks read: [Some message] for an
    instance of Error, [None] for any other thrown value. *)
Inductive outcome (T : Type) : Type :=
| Fulfilled (value : T)
| Failed (message : option string).
Arguments Fulfilled {T} value.
Arguments Failed {T} message.

(** [err instanceof Error ? err.message : fallback] *)
Definition messageOr (fallback : string) (message : option string) : string :=
  match message with
  | Some m => m
  | None => fallback
  end.

(** [Promise.all([a, b])]: both values, or the rejection that came first;
    [aFirst] tells which one did when both reject. *)
Definition promiseAll {A B : Type} (a : outcome A) (b : outcome B)
    (aFirst : bool) : outcome (A * B) :=
  match a, b with
  | Fulfilled x, Fulfilled y => Fulfilled (x, y)
  | Failed m, Fulfilled _ => Failed m
  | Fulfilled _, Failed m => Failed m
  | Failed ma, Failed mb => Failed (if aFirst then ma else mb)
  end.

(** ** app/(tabs)/index.tsx *)

Module HomeScreen.

Section WithGroup.

(** app/types/group.ts is not among the sources; the handlers of this
    screen treat a group as an opaque value. *)
Variable Group : Type.

Record State : Type := mkState {
  groups : list Group;
  isLoading : bool;
  error : option string;
  isCreateModalVisible : bool
}.

(** [useState] initial values. *)
Definition initial : State := mkState [] true None false.

(** [fetchGroups], given how [api.groups.getAll] settles. *)
Definition fetchGroups (response : outcome (list Group)) (st : State)
  : State :=
  match response with
  | Fulfilled data =>
      mkState data false (error st) (isCreateModalVisible st)
  | Failed err =>
      mkState (groups st) false
              (Some (messageOr "Failed to fetch groups" err))
              (isCreateModalVisible st)
  end.

(** [handleCreateGroup]; [create] stands for [api.groups.create] applied
    to the request data. *)
Definition handleCreateGroup
    (create : string -> list string -> outcome Group)
    (name : string) (members : list string) (st : State) : State :=
  match create name members with
  | Fulfilled newGroup =>
      mkState (groups st ++ [newGroup])%list (isLoading st) (error st) false
  | Failed err =>
      mkState (groups st) (isLoading st)
              (Some (messageOr "Failed to create group" err))
              (isCreateModalVisible st)
  end.

Definition setIsCreateModalVisible (b : bool) (st : State) : State :=
  mkState (groups st) (isLoading st) (error st) b.

(** What the screen renders. *)
Inductive View : Type :=
| LoadingView
| ErrorView (message : string)
| EmptyView        (* "No groups yet", the add button and the modal *)
| ListView (items : list Group).

Definition render (st : State) : View :=
  if isLoading st then LoadingView
  else match error st with
       | Some message =>
           if JS.truthy message then ErrorView message
           else match groups st with
                | [] => EmptyView
                | _ => ListView (groups st)
                end
       | None =>
           match groups st with
           | [] => EmptyView
           | _ => ListView (groups st)
           end
       end.

(** What can happen to the mounted screen. *)
Inductive Event : Type :=
| Focus (response : outcome (list Group))   (* useFocusEffect: fetchGroups *)
| PressNewGroup
| CloseModal
| SubmitGroup (create : string -> list string -> outcome Group)
              (name : string) (members : list string).

Definition step (e : Event) (st : State) : State :=
  match e with
  | Focus response => fetchGroups response st
  | PressNewGroup => setIsCreateModalVisible true st
  | CloseModal => setIsCreateModalVisible false st
  | SubmitGroup create name members =>
      handleCreateGroup create name members st
  end.

Definition run (events : list Event) (st : State) : State :=
  fold_left (fun acc e => step e acc) events st.

End WithGroup.

Arguments mkState {Group}.
Arguments groups {Group}.
Arguments isLoading {Group}.
Arguments error {Group}.
Arguments isCreateModalVisible {Group}.
Arguments initial {Group}.
Arguments fetchGroups {Group}.
Arguments handleCreateGroup {Group}.
Arguments setIsCreateModalVisible {Group}.
Arguments LoadingView {Group}.
Arguments ErrorView {Group}.
Arguments EmptyView {Group}.
Arguments ListView {Group}.
Arguments render {Group}.
Arguments Focus {Group}.
Arguments PressNewGroup {Group}.
Arguments CloseModal {Group}.
Arguments SubmitGroup {Group}.
Arguments step {Group}.
Arguments run {Group}.

End HomeScreen.

(** ** app/group/[id].tsx: the handlers of the screen *)

Module GroupDetailScreen.

Section WithGroup.

(** app/types/group.ts is not among the sources; the handlers of this
    screen treat a group as an opaque value. *)
Variable Group : Type.

Record State : Type := mkState {
  group : option Group;
  expenses : list Expense;
  isLoading : bool;
  error : option string;
  isAddExpenseModalVisible : bool
}.

(** [useState] initial values. *)
Definition initial : State := mkState None [] true None false.

(** [fetchData], given how [api.groups.getById] and
    [api.groups.getExpenses] settle. *)
Definition fetchData (groupData : outcome Group)
    (expensesData : outcome (list Expense)) (groupFirst : bool)
    (st : State) : State :=
  match promiseAll groupData expensesData groupFirst with
  | Fulfilled (g, es) =>
      mkState (Some g) es false (error st) (isAddExpenseModalVisible st)
  | Failed err =>
      mkState (group st) (expenses st) false
              (Some (messageOr "Failed to fetch data" err))
              (isAddExpenseModalVisible st)
  end.

(** [handleDeleteExpense]: the alert is answered ([confirmed] for
    Delete), then [api.groups.deleteExpense] and [api.groups.getExpenses]
    settle in turn. *)
Definition handleDeleteExpense (confirmed : bool) (deleted : outcome unit)
    (updatedExpenses : outcome (list Expense)) (st : State) : State :=
  if confirmed then
    match deleted with
    | Fulfilled _ =>
        match updatedExpenses with
        | Fulfilled es =>
            mkState (group st) es (isLoading st) (error st)
                    (isAddExpenseModalVisible st)
        | Failed err =>
            mkState (group st) (expenses st) (isLoading st)
                    (Some (messageOr "Failed to delete expense" err))
                    (isAddExpenseModalVisible st)
        end
    | Failed err =>
        mkState (group st) (expenses st) (isLoading st)
                (Some (messageOr "Failed to delete expense" err))
                (isAddExpenseModalVisible st)
    end
  else st.

Definition setIsAddExpenseModalVisible (b : bool) (st : State) : State :=
  mkState (group st) (expenses st) (isLoading st) (error st) b.

(** [handleAddExpense]: [api.groups.createExpense] settles, then the data
    is fetched again and the modal is closed. *)
Definition handleAddExpense (created : outcome Expense)
    (groupData : outcome Group) (expensesData : outcome (list Expense))
    (groupFirst : bool) (st : State) : State :=
  match created with
  | Fulfilled _ =>
      setIsAddExpenseModalVisible false
        (fetchData groupData expensesData groupFirst st)
  | Failed err =>
      mkState (group st) (expenses st) (isLoading st)
              (Some (messageOr "Failed to add expense" err))
              (isAddExpenseModalVisible st)
  end.

(** What the screen renders. *)
Inductive View : Type :=
| LoadingView
| ErrorView (message : string)
| NotFoundView
| ContentView (g : Group) (items : list Expense).

Definition render (st : State) : View :=
  if isLoading st then LoadingView
  else
    let content :=
      match group st with
      | Some g => ContentView g (expenses st)
      | None => NotFoundView
      end in
    match error st with
    | Some message => if JS.truthy message then ErrorView message else content
    | None => content
    end.

(** What can happen to the mounted screen. *)
Inductive Event : Type :=
| Focus (groupData : outcome Group) (expensesData : outcome (list Expense))
        (groupFirst : bool)
| PressNewExpense
| CloseModal
| AddExpense (created : outcome Expense) (groupData : outcome Group)
             (expensesData : outcome (list Expense)) (groupFirst : bool)
| DeleteExpense (confirmed : bool) (deleted : outcome unit)
                (updatedExpenses : outcome (list Expense)).

Definition step (e : Event) (st : State) : State :=
  match e with
  | Focus g es gf => fetchData g es gf st
  | PressNewExpense => setIsAddExpenseModalVisible true st
  | CloseModal => setIsAddExpenseModalVisible false st
  | AddExpense c g es gf => handleAddExpense c g es gf st
  | DeleteExpense c d es => handleDeleteExpense c d es st
  end.

Definition run (events : list Event) (st : State) : State :=
  fold_left (fun acc e => step e acc) events st.

End WithGroup.

Arguments mkState {Group}.
Arguments group {Group}.
Arguments expenses {Group}.
Arguments isLoading {Group}.
Arguments error {Group}.
Arguments isAddExpenseModalVisible {Group}.
Arguments initial {Group}.
Arguments fetchData {Group}.
Arguments handleDeleteExpense {Group}.
Arguments setIsAddExpenseModalVisible {Group}.
Arguments handleAddExpense {Group}.
Arguments LoadingView {Group}.
Arguments ErrorView {Group}.
Arguments NotFoundView {Group}.
Arguments ContentView {Group}.
Arguments render {Group}.
Arguments Focus {Group}.
Arguments PressNewExpense {Group}.
Arguments CloseModal {Group}.
Arguments AddExpense {Group}.
Arguments DeleteExpense {Group}.
Arguments step {Group}.
Arguments run {Group}.

End GroupDetailScreen.

(** ** The ledger rules of the specification

    The repository holds no balance computation and no ledger object (the
    expense list and the group total are fetched from the server); the
    definitions of this module are therefore written from sections 3 and
    4.1 of the specification. *)

Module LedgerEngine.

(** Modelled from the spec: the failure kinds of section 7 (the engine
    class and its error types are missing from the sources). *)
Inductive Error : Type :=
| InvalidAmountError
| MissingDescriptionError
| UnknownMemberError
| EmptySplitError
| InvalidSettlementError
| RecordNotFoundError
| InvalidRecordError.

(** Modelled from the spec: the expense record of section 3, with the
    amount in integer minor currency units and the creation instant as a
    number (the engine's record type is missing from the sources). *)
Record Rec : Type := mkRec {
  rec_id : nat;
  rec_kind : ExpenseType;
  rec_description : string;
  rec_amount : Z;
  rec_payer : string;
  rec_split : list string;
  rec_createdAt : Z
}.

(** Modelled from the spec: the inputs of [addRecord] (section 4.1). *)
Record Draft : Type := mkDraft {
  d_kind : ExpenseType;
  d_description : string;
  d_amount : Z;
  d_payer : string;
  d_split : list string
}.

(** Modelled from the spec: the engine state, the member list, the
    records in insertion order, the cached total and the next free
    identifier (the engine class is missing from the sources). *)
Record Ledger : Type := mkLedger {
  members : list string;
  records : list Rec;
  totalExpenses : Z;
  nextId : nat
}.

(** Modelled from the spec: membership of a name in the group's member
    set (section 3). *)
Definition isMember (ms : list string) (m : string) : bool :=
  existsb (String.eqb m) ms.

(** Modelled from the spec: the kind [expense], as opposed to
    [settlement] (section 3). *)
Definition isExpense (k : ExpenseType) : bool :=
  match k with expense => true | settlement => false end.

(** Modelled from the spec: the validation order of [addRecord]
    (section 4.1, steps 1 to 6); [None] when every step passes. *)
Definition validate (ms : list string) (d : Draft) : option Error :=
  if (d_amount d <=? 0)%Z then Some InvalidAmountError
  else if isExpense (d_kind d)
          && negb (JS.truthy (JS.trim (d_description d)))
  then Some MissingDescriptionError
  else if negb (isMember ms (d_payer d)) then Some UnknownMemberError
  else if JS.isNil (d_split d) then Some EmptySplitError
  else if negb (forallb (isMember ms) (d_split d))
  then Some UnknownMemberError
  else if negb (isExpense (d_kind d))
          && negb (length (d_split d) =? 1)%nat
  then Some InvalidSettlementError
  else None.

(** Modelled from the spec: the invariants of section 3 on a stored
    record. *)
Definition validRec (ms : list string) (r : Rec) : bool :=
  (0 <? rec_amount r)%Z
  && negb (JS.isNil (rec_split r))
  && forallb (isMember ms) (rec_split r)
  && isMember ms (rec_payer r)
  && (isExpense (rec_kind r) || (length (rec_split r) =? 1)%nat).

(** Modelled from the spec: what a record counts toward the total spend;
    settlements count nothing (section 4.1). *)
Definition expenseAmount (r : Rec) : Z :=
  if isExpense (rec_kind r) then rec_amount r else 0%Z.

(** Modelled from the spec: construction from a member list and a record
    list, failing with InvalidRecordError on a record that violates the
    invariants; the total is the sum of the non-settlement amounts. *)
Definition construct (ms : list string) (rs : list Rec)
  : Error + Ledger :=
  if forallb (validRec ms) rs then
    inr (mkLedger ms rs
           (fold_right (fun r acc => (expenseAmount r + acc)%Z) 0%Z rs)
           (S (fold_right (fun r acc => Nat.max (rec_id r) acc) 0%nat rs)))
  else inl InvalidRecordError.

(** Modelled from the spec: [addRecord] of section 4.1; [now] is the
    current instant. *)
Definition addRecord (now : Z) (d : Draft) (L : Ledger)
  : Error + (Ledger * Rec) :=
  match validate (members L) d with
  | Some e => inl e
  | None =>
      let r := mkRec (nextId L) (d_kind d) (d_description d) (d_amount d)
                     (d_payer d) (d_split d) now in
      inr (mkLedger (members L) (records L ++ [r])
             (if isExpense (d_kind d)
              then (totalExpenses L + d_amount d)%Z
              else totalExpenses L)
             (S (nextId L)),
           r)
  end.

(** Modelled from the spec: lookup of a record by identifier, for
    [removeRecord] (section 4.1). *)
Fixpoint findRec (i : nat) (rs : list Rec) : option Rec :=
  match rs with
  | [] => None
  | r :: rs' => if (rec_id r =? i)%nat then Some r else findRec i rs'
  end.

(** Modelled from the spec: the record list without the record of that
    identifier, for [removeRecord] (section 4.1). *)
Fixpoint dropRec (i : nat) (rs : list Rec) : list Rec :=
  match rs with
  | [] => []
  | r :: rs' => if (rec_id r =? i)%nat then rs' else r :: dropRec i rs'
  end.

(** Modelled from the spec: [removeRecord] of section 4.1. *)
Definition removeRecord (i : nat) (L : Ledger) : Error + (Ledger * Rec) :=
  match findRec i (records L) with
  | None => inl RecordNotFoundError
  | Some r =>
      inr (mkLedger (members L) (dropRec i (records L))
             (totalExpenses L - expenseAmount r)%Z
             (nextId L),
           r)
  end.

(** Modelled from the spec: crediting ([d] positive) or debiting ([d]
    negative) the balance of [m] (section 4.1). *)
Definition adjust (m : string) (d : Z) (b : gmap string Z)
  : gmap string Z :=
  <[m := (default 0%Z (b !! m) + d)%Z]> b.

(** Modelled from the spec: the rounding policy of section 4.1; the
    member at position [i] of the split set owes the quotient, and one
    minor unit more when [i] is below the remainder. *)
Fixpoint sharesFrom (q r i : Z) (split : list string)
  : list (string * Z) :=
  match split with
  | [] => []
  | m :: rest =>
      (m, (q + (if (i <? r)%Z then 1 else 0))%Z)
        :: sharesFrom q r (i + 1)%Z rest
  end.

(** Modelled from the spec: the per-member shares of an amount over a
    split set (section 4.1). *)
Definition shares (amount : Z) (split : list string) : list (string * Z) :=
  let n := Z.of_nat (length split) in
  sharesFrom (amount / n)%Z (amount mod n)%Z 0%Z split.

(** Modelled from the spec: a split member is debited its share
    (section 4.1). *)
Definition debit (acc : gmap string Z) (ms : string * Z) : gmap string Z :=
  adjust (fst ms) (- snd ms)%Z acc.

(** Modelled from the spec: the effect of one record on the balances
    (section 4.1): an expense credits the payer the full amount and
    debits every split member its share; a settlement credits the
    recipient and debits the payer. *)
Definition applyRecord (b : gmap string Z) (r : Rec) : gmap string Z :=
  match rec_kind r with
  | expense =>
      fold_left debit (shares (rec_amount r) (rec_split r))
                (adjust (rec_payer r) (rec_amount r) b)
  | settlement =>
      match rec_split r with
      | recipient :: _ =>
          adjust recipient (rec_amount r)
                 (adjust (rec_payer r) (- rec_amount r)%Z b)
      | [] => b
      end
  end.

(** Modelled from the spec: the balances before any record, zero for
    every member (section 4.1). *)
Definition zeroBalances (ms : list string) : gmap string Z :=
  fold_right (fun m acc => <[m := 0%Z]> acc) ∅ ms.

(** Modelled from the spec: [computeBalances] of section 4.1, the net
    signed amount of every member. *)
Definition computeBalances (L : Ledger) : gmap string Z :=
  fold_left applyRecord (records L) (zeroBalances (members L)).

(** Modelled from the spec: the sum of the balances across all members
    (section 8, conservation law). *)
Definition total (b : gmap string Z) : Z :=
  map_fold (fun _ v acc => (v + acc)%Z) 0%Z b.

(** Modelled from the spec: the ledgers a caller can hold, constructed
    from records that pass the checks, then changed by accepted additions
    and removals (sections 2 and 4.1). *)
Inductive built : Ledger -> Prop :=
| built_construct ms rs L :
    construct ms rs = inr L -> built L
| built_add now d L L' r :
    built L -> addRecord now d L = inr (L', r) -> built L'
| built_remove i L L' r :
    built L -> removeRecord i L = inr (L', r) -> built L'.

End LedgerEngine.

(** ** Predicates used in the statements *)

(** Empty or whitespace-only text: [!s.trim()]. *)
Definition blank (s : string) : bool := negb (JS.truthy (JS.trim s)).

(** The four messages [AddExpenseModal.handleSubmit] can set. *)
Definition expenseMessages : list string :=
  [ "Please enter a description";
    "Please enter a valid amount";
    "Please select who paid";
    "Please select at least one member to split with" ].

(** A parent that keeps the submitted expenses as its ledger. *)
Definition recordCall (d : string) (a : JS.number) (p : string)
    (s : list string) (ledger : list AddExpenseModal.Call)
  : list AddExpenseModal.Call :=
  (ledger ++ [AddExpenseModal.mkCall d a p s])%list.

(** The submission condition of the group form: a non-empty trimmed name
    and at least two selected members. *)
Definition groupReady (st : CreateGroupModal.State) : bool :=
  JS.truthy (JS.trim (CreateGroupModal.name st))
  && (2 <=? length (CreateGroupModal.selectedMembers st))%nat.

(** The ok response carries a body the handler reads as JSON. *)
Definition readsJson (r : Api.Response) : bool :=
  negb (Api.status r =? 204)%Z
  && match Api.contentType r with
     | Some ct => JS.includes ct "application/json"
     | None => false
     end.

(** The records of all sections, section after section. *)
Definition flatten (g : GroupDetail.GroupedExpenses) : list Expense :=
  concat (map snd g).

(** [groups[k]], [None] for undefined. *)
Fixpoint getBucket (k : string) (g : GroupDetail.GroupedExpenses)
  : option (list Expense) :=
  match g with
  | [] => None
  | (k', es) :: rest => if String.eqb k' k then Some es else getBucket k rest
  end.

(** The records of month [k], in input order. *)
Definition ofMonth (monthKey : string -> string) (k : string)
    (expenses : list Expense) : list Expense :=
  filter (fun e => monthKey (createdAt e) = k) expenses.

(** [a] is dated no earlier than [b], both keys being parsed. *)
Definition datedGe (getTime : string -> option Z)
    (a b : string * list Expense) : Prop :=
  exists ta tb,
    getTime (fst a) = Some ta /\ getTime (fst b) = Some tb /\ (tb <= ta)%Z.

Definition parsed (getTime : string -> option Z)
    (a : string * list Expense) : Prop :=
  is_Some (getTime (fst a)).

(** An expense of April 2024 followed by one of May 2024, as the server
    lists them. *)
Definition aprilRent : Expense :=
  mkExpense "e1" "e1" "g1" "Miete" (JS.Finite false 900 0) "Asha"
            ["Asha"; "Ravi"] "2024-04-02T08:00:00.000Z" expense.

Definition mayPower : Expense :=
  mkExpense "e2" "e2" "g1" "Strom" (JS.Finite false 60 0) "Ravi"
            ["Asha"; "Ravi"] "2024-05-03T08:00:00.000Z" expense.

(** Month keys of a device whose default locale is German. *)
Definition germanMonthKey (createdAt : string) : string :=
  if String.prefix "2024-04" createdAt then "April 2024"
  else if String.prefix "2024-05" createdAt then "Mai 2024"
  else "Invalid Date".

Definition sumZ (l : list Z) : Z := fold_right Z.add 0%Z l.

(** The balance of [m], zero when the map has no entry for it. *)
Definition bal (b : gmap string Z) (m : string) : Z := default 0%Z (b !! m).

(** What the entries of the split set named [m] owe together. *)
Definition owed (m : string) (sh : list (string * Z)) : Z :=
  sumZ (map snd (filter (fun ms => fst ms = m) sh)).

(** The invariant of the ledgers a caller can hold: every stored record
    satisfies the checks, and every stored identifier is below the next
    one. *)
Definition wellFormed (L : LedgerEngine.Ledger) : Prop :=
  Forall (fun r => LedgerEngine.validRec (LedgerEngine.members L) r = true)
         (LedgerEngine.records L)
  /\ Forall (fun r => (LedgerEngine.rec_id r < LedgerEngine.nextId L)%nat)
            (LedgerEngine.records L).

(** Three members, one dinner of 10000 minor units paid by A and shared
    by all three. *)
Definition dinner : LedgerEngine.Draft :=
  LedgerEngine.mkDraft expense "Dinner" 10000 "A" ["A"; "B"; "C"].

Definition dinnerLedger : LedgerEngine.Ledger :=
  LedgerEngine.mkLedger ["A"; "B"; "C"]
    [LedgerEngine.mkRec 1 expense "Dinner" 10000 "A" ["A"; "B"; "C"]
                        1714000000]
    10000 2.

(** The distinct strings of a list, each at its first occurrence. *)
Fixpoint firstSeen (l : list string) : list string :=
  match l with
  | [] => []
  | k :: rest => k :: filter (fun k' => k' <> k) (firstSeen rest)
  end.

(** Month keys and their parsed instants on a device whose default locale
    is English and whose Date constructor reads "Month YYYY". *)
Definition englishMonthKey (createdAt : string) : string :=
  if String.prefix "2024-04" createdAt then "April 2024"
  else if String.prefix "2024-05" createdAt then "May 2024"
  else "Invalid Date".

Definition englishGetTime (key : string) : option Z :=
  if String.eqb key "April 2024" then Some 1711929600000%Z
  else if String.eqb key "May 2024" then Some 1714521600000%Z
  else None.

(** Every API call of a home-screen event resolves. *)
Definition homeEventSucceeds {Group : Type} (e : HomeScreen.Event Group)
  : Prop :=
  match e with
  | HomeScreen.Focus (Failed _) => False
  | HomeScreen.SubmitGroup create name members =>
      exists g, create name members = Fulfilled g
  | _ => True
  end.

(** Every API call of a group-screen event resolves. *)
Definition groupEventSucceeds {Group : Type}
    (e : GroupDetailScreen.Event Group) : Prop :=
  match e with
  | GroupDetailScreen.Focus (Fulfilled _) (Fulfilled _) _ => True
  | GroupDetailScreen.Focus _ _ _ => False
  | GroupDetailScreen.AddExpense (Fulfilled _) (Fulfilled _) (Fulfilled _) _ =>
      True
  | GroupDetailScreen.AddExpense _ _ _ _ => False
  | GroupDetailScreen.DeleteExpense true (Fulfilled _) (Fulfilled _) => True
  | GroupDetailScreen.DeleteExpense true _ _ => False
  | _ => True
  end.

(** * Properties *)

(** ** Number and trim on sample texts *)

Example Number_ex1 : JS.Number " 12.50 " = JS.Finite false 1250 (-2).
Proof. reflexivity. Qed.
Example Number_ex2 : JS.Number "abc" = JS.NaN.
Proof. reflexivity. Qed.
Example Number_ex3 : JS.Number "0" = JS.Finite false 0 0.
Proof. reflexivity. Qed.
Example Number_ex4 : JS.Number "-5" = JS.Finite true 5 0.
Proof. reflexivity. Qed.
Example Number_ex5 : JS.Number "1e3" = JS.Finite false 1 3.
Proof. reflexivity. Qed.
Example Number_ex6 : JS.Number "1e" = JS.NaN.
Proof. reflexivity. Qed.
Example Number_ex7 : JS.Number "0x1F" = JS.Finite false 31 0.
Proof. reflexivity. Qed.
Example Number_ex8 : JS.Number "." = JS.NaN.
Proof. reflexivity. Qed.
Example Number_ex9 : JS.Number "12abc" = JS.NaN.
Proof. reflexivity. Qed.
Example Number_ex10 : JS.Number "" = JS.Finite false 0 0.
Proof. reflexivity. Qed.
Example trim_ex : JS.trim "  a b  " = "a b".
Proof. reflexivity. Qed.


(** ** AddExpenseModal.handleSubmit *)

Section AddExpense.
Import AddExpenseModal.

Lemma handleSubmit_cases (st : State) :
  (exists msg, In msg expenseMessages
               /\ handleSubmit st = (setError (Some msg) st, None))
  \/ (exists c, handleSubmit st = (clearFields st, Some c)).
Proof.
  unfold handleSubmit, expenseMessages.
  repeat match goal with
         | |- context [if ?b then _ else _] => destruct b
         end;
    try (left; eexists; split; [| reflexivity]; simpl; tauto).
  right; eexists; reflexivity.
Qed.

Lemma blank_description_refused (st : State) :
  blank (description st) = true ->
  handleSubmit st = (setError (Some "Please enter a description") st, None).
Proof. unfold blank, handleSubmit. intros ->. reflexivity. Qed.

Lemma bad_amount_refused (st : State) :
  blank (description st) = false ->
  blank (amount st) = true \/ JS.Number (amount st) = JS.NaN ->
  handleSubmit st = (setError (Some "Please enter a valid amount") st, None).
Proof.
  unfold blank, handleSubmit.
  intros -> [-> | ->]; simpl; [reflexivity |].
  rewrite orb_true_r. reflexivity.
Qed.

(** C5, as the code has it: the description check is the first step and
    the amount check the second; a state with a blank description is
    refused with the description message whatever its amount, and a
    state with a non-blank description whose amount text is blank or does
    not denote a number is refused with the amount message. *)
Theorem description_check_precedes_amount_check (st : State) :
  (blank (description st) = true ->
   handleSubmit st = (setError (Some "Please enter a description") st, None))
  /\ (blank (description st) = false ->
      blank (amount st) = true \/ JS.Number (amount st) = JS.NaN ->
      handleSubmit st
      = (setError (Some "Please enter a valid amount") st, None)).
Proof.
  split; [apply blank_description_refused | apply bad_amount_refused].
Qed.

Lemma description_check_precedes_amount_check_witness :
  let st := mkState "Dinner" "12,50" "Asha" ["Asha"; "Ravi"] None false in
  blank (description st) = false
  /\ JS.Number (amount st) = JS.NaN
  /\ handleSubmit st
     = (setError (Some "Please enter a valid amount") st, None).
Proof.
  intros st. split; [reflexivity |]. split; [reflexivity |].
  apply (proj2 (description_check_precedes_amount_check st));
    [reflexivity | right; reflexivity].
Defined.

(** C5 fails as stated: with a whitespace-only description and an amount
    that is not a number the form reports the description message, not
    the amount message; and a negative amount passes the amount check. *)
Lemma amount_check_is_not_first :
  let st := mkState "   " "abc" "Asha" ["Asha"; "Ravi"] None false in
  let st' := mkState "Dinner" "-5" "Asha" ["Asha"; "Ravi"] None false in
  JS.Number (amount st) = JS.NaN
  /\ error (fst (handleSubmit st)) = Some "Please enter a description"
  /\ error (fst (handleSubmit st)) <> Some "Please enter a valid amount"
  /\ JS.Number (amount st') = JS.Finite true 5 0
  /\ handleSubmit st'
     = (clearFields st',
        Some (mkCall "Dinner" (JS.Finite true 5 0) "Asha" ["Asha"; "Ravi"])).
Proof.
  cbv zeta. repeat split; try reflexivity.
  vm_compute. discriminate.
Qed.

(** C6, as the code has it: a submission whose amount text is blank, or
    not a number, is refused with the amount message when the description
    is filled in, the parent's ledger is not touched and the entered
    fields stay as they were. *)
Theorem invalid_amount_leaves_ledger_unchanged {Parent : Type}
    (onSubmit : string -> JS.number -> string -> list string
                -> Parent -> Parent)
    (st : State) (ledger : Parent) :
  blank (description st) = false ->
  blank (amount st) = true \/ JS.Number (amount st) = JS.NaN ->
  press onSubmit st ledger
  = (setError (Some "Please enter a valid amount") st, ledger).
Proof.
  intros Hd Ha. unfold press.
  rewrite bad_amount_refused; [reflexivity | assumption | assumption].
Qed.

Lemma invalid_amount_leaves_ledger_unchanged_witness :
  let st := mkState "Taxi" "" "Ravi" ["Asha"; "Ravi"] None false in
  let ledger := [mkCall "Dinner" (JS.Finite false 1250 (-2)) "Asha" ["Asha"]] in
  blank (description st) = false
  /\ press recordCall st ledger
     = (setError (Some "Please enter a valid amount") st, ledger).
Proof.
  intros st ledger. split; [reflexivity |].
  apply (invalid_amount_leaves_ledger_unchanged recordCall st ledger);
    [reflexivity | left; reflexivity].
Defined.

(** C6 fails as stated: an amount of 0 passes the form's checks, the
    submission is emitted with amount 0 and the parent's record count
    grows. *)
Lemma zero_amount_is_submitted :
  let st := mkState "Lunch" "0" "Asha" ["Asha"; "Ravi"] None false in
  handleSubmit st
  = (clearFields st,
     Some (mkCall "Lunch" (JS.Finite false 0 0) "Asha" ["Asha"; "Ravi"]))
  /\ error (fst (handleSubmit st)) = None
  /\ length (snd (press recordCall st [])) = 1%nat.
Proof. cbv zeta. repeat split. Qed.

(** C8: whenever one of the four checks of the expense form fails (a
    blank description, an amount that is blank or not a number, a blank
    payer, an empty split selection), the handler reports the message of
    the first failing check and changes nothing else: no submission is
    emitted, the ledger held by the parent is the one before the call,
    and every entered field is unchanged. *)
Theorem failed_validation_is_atomic {Parent : Type}
    (onSubmit : string -> JS.number -> string -> list string
                -> Parent -> Parent)
    (st : State) (ledger : Parent) :
  blank (description st) = true
  \/ (blank (amount st) = true \/ JS.isNaN (JS.Number (amount st)) = true)
  \/ blank (paidBy st) = true
  \/ selectedMembers st = [] ->
  let msg :=
    if blank (description st) then "Please enter a description"
    else if blank (amount st) || JS.isNaN (JS.Number (amount st))
    then "Please enter a valid amount"
    else if blank (paidBy st) then "Please select who paid"
    else "Please select at least one member to split with" in
  In msg expenseMessages
  /\ handleSubmit st = (setError (Some msg) st, None)
  /\ press onSubmit st ledger = (setError (Some msg) st, ledger).
Proof.
  intros Hfail. cbv zeta. unfold press, handleSubmit, blank in *.
  destruct (negb (JS.truthy (JS.trim (description st))));
    [simpl; tauto |].
  destruct (negb (JS.truthy (JS.trim (amount st))));
    [simpl; tauto |].
  destruct (JS.isNaN (JS.Number (amount st))); [simpl; tauto |].
  destruct (negb (JS.truthy (JS.trim (paidBy st))));
    [simpl; tauto |].
  destruct (selectedMembers st) as [| m ms] eqn:Hsel; [simpl; tauto |].
  exfalso.
  destruct Hfail as [H | [[H | H] | [H | H]]]; discriminate H.
Qed.

Lemma failed_validation_is_atomic_witness :
  let st := mkState "Groceries" "42" "   " ["Asha"] None true in
  let ledger := [mkCall "Dinner" (JS.Finite false 1250 (-2)) "Asha" ["Asha"]] in
  handleSubmit st = (setError (Some "Please select who paid") st, None)
  /\ press recordCall st ledger
     = (setError (Some "Please select who paid") st, ledger).
Proof.
  intros st ledger.
  apply (failed_validation_is_atomic recordCall st ledger).
  right. right. left. reflexivity.
Defined.

End AddExpense.

(** ** CreateGroupModal.handleSubmit *)

Section CreateGroup.
Import CreateGroupModal.

Lemma length_lt_2 (ms : list string) :
  (length ms <? 2)%nat = negb (2 <=? length ms)%nat.
Proof.
  destruct (Nat.ltb_spec (length ms) 2), (Nat.leb_spec 2 (length ms));
    simpl; try reflexivity; lia.
Qed.



End CreateGroup.

(** ** Api.handleResponse *)

Section HandleResponse.
Import Api.

Lemma handleResponse_not_ok (r : Response) :
  ok r = false -> exists e, handleResponse r = Rejected e.
Proof.
  intros H. unfold handleResponse. rewrite H. simpl.
  destruct (jsonBody r) as [[] |]; simpl; try (eexists; reflexivity).
  destruct (getField "message" fields); eexists; reflexivity.
Qed.

Lemma handleResponse_ok (r : Response) :
  ok r = true ->
  handleResponse r
  = if readsJson r then
      match jsonBody r with
      | Some j => Resolved j
      | None => Rejected JsonRejected
      end
    else Resolved emptyObject.
Proof.
  intros H. unfold handleResponse, readsJson. rewrite H. simpl.
  destruct (status r =? 204)%Z; simpl; [reflexivity |].
  destruct (contentType r) as [ct |]; [| reflexivity].
  destruct ct as [| c ct]; [reflexivity |].
  reflexivity.
Qed.

(** C10, as the code has it: the handler rejects every response that is
    not ok; for an ok response it settles as [response.json()] does (the
    parsed body, or the rejection of a body that does not parse) exactly
    when the status is not 204 and the content-type header includes
    application/json, and resolves to an empty object otherwise. *)
Theorem handleResponse_outcome (r : Response) :
  (ok r = false -> exists e, handleResponse r = Rejected e)
  /\ (ok r = true ->
      handleResponse r
      = if readsJson r then
          match jsonBody r with
          | Some j => Resolved j
          | None => Rejected JsonRejected
          end
        else Resolved emptyObject).
Proof.
  split; [apply handleResponse_not_ok | apply handleResponse_ok].
Qed.

Lemma handleResponse_outcome_witness :
  let created := mkResponse 201 (Some "application/json; charset=utf-8")
                            (Some (JObj [("id", JStr "g1")])) in
  let missing :=
    mkResponse 404 (Some "application/json")
               (Some (JObj [("message", JStr "Group not found")])) in
  handleResponse created = Resolved (JObj [("id", JStr "g1")])
  /\ exists e, handleResponse missing = Rejected e.
Proof.
  intros created missing. split.
  - apply (proj2 (handleResponse_outcome created)). reflexivity.
  - apply (proj1 (handleResponse_outcome missing)). reflexivity.
Defined.

(** C10 fails as stated: an ok response with a JSON content type whose
    body does not parse (an empty body, say) makes the handler reject,
    although the response is ok. *)
Lemma ok_response_can_reject :
  let r := mkResponse 200 (Some "application/json") None in
  ok r = true
  /\ handleResponse r = Rejected JsonRejected
  /\ ~ (forall r',
          (exists e, handleResponse r' = Rejected e) <-> ok r' = false).
Proof.
  cbv zeta. split; [reflexivity |]. split; [reflexivity |].
  intros H.
  specialize (H (mkResponse 200 (Some "application/json") None)).
  destruct H as [H _].
  assert (Hok : ok (mkResponse 200 (Some "application/json") None) = false)
    by (apply H; eexists; reflexivity).
  discriminate Hok.
Qed.

End HandleResponse.

(** ** Month sections of the group screen *)

Section MonthSections.
Import GroupDetail.

Lemma insertBy_perm {A} (le : A -> A -> bool) (x : A) (l : list A) :
  insertBy le x l ≡ₚ x :: l.
Proof.
  induction l as [| y l IH]; simpl; [reflexivity |].
  destruct (le x y); [reflexivity |].
  rewrite IH. apply perm_swap.
Qed.

Lemma sortBy_perm {A} (le : A -> A -> bool) (l : list A) :
  sortBy le l ≡ₚ l.
Proof.
  induction l as [| x l IH]; simpl; [reflexivity |].
  rewrite insertBy_perm. now rewrite IH.
Qed.

Lemma flatten_perm (g1 g2 : GroupedExpenses) :
  g1 ≡ₚ g2 -> flatten g1 ≡ₚ flatten g2.
Proof.
  unfold flatten.
  induction 1 as [| [k es] g g' _ IH | [k1 e1] [k2 e2] g
                 | g g' g'' _ IH1 _ IH2];
    simpl.
  - reflexivity.
  - now rewrite IH.
  - rewrite !app_assoc. f_equiv. apply Permutation_app_comm.
  - now rewrite IH1.
Qed.

Lemma flatten_pushTo (k : string) (e : Expense) (g : GroupedExpenses) :
  flatten (pushTo k e g) ≡ₚ e :: flatten g.
Proof.
  unfold flatten. induction g as [| [k' es] rest IH]; simpl; [reflexivity |].
  destruct (String.eqb k' k); simpl.
  - rewrite <- app_assoc. simpl.
    symmetry. apply Permutation_middle.
  - rewrite IH. symmetry. apply Permutation_middle.
Qed.

Lemma keys_pushTo (k : string) (e : Expense) (g : GroupedExpenses) :
  map fst (pushTo k e g)
  = match getBucket k g with
    | Some _ => map fst g
    | None => (map fst g ++ [k])%list
    end.
Proof.
  induction g as [| [k' es] rest IH]; simpl; [reflexivity |].
  destruct (String.eqb k' k); simpl; [reflexivity |].
  rewrite IH. destruct (getBucket k rest); reflexivity.
Qed.

Lemma getBucket_pushTo (k k' : string) (e : Expense) (g : GroupedExpenses) :
  getBucket k' (pushTo k e g)
  = if String.eqb k k' then Some (default [] (getBucket k g) ++ [e])%list
    else getBucket k' g.
Proof.
  induction g as [| [k0 es] rest IH]; simpl.
  - destruct (String.eqb k k'); reflexivity.
  - destruct (String.eqb_spec k0 k) as [-> | Hne]; simpl.
    + destruct (String.eqb k k'); reflexivity.
    + rewrite IH.
      destruct (String.eqb_spec k0 k') as [-> | Hne'].
      * destruct (String.eqb_spec k k'); [congruence | reflexivity].
      * reflexivity.
Qed.

Lemma getBucket_None (k : string) (g : GroupedExpenses) :
  getBucket k g = None <-> k ∉ map fst g.
Proof.
  induction g as [| [k' es] rest IH]; simpl.
  - split; [intros _; apply not_elem_of_nil | reflexivity].
  - rewrite not_elem_of_cons.
    destruct (String.eqb_spec k' k) as [-> | Hne].
    + split; [discriminate | intros [H _]; congruence].
    + rewrite IH. split; [intros H; split; [congruence | exact H] | tauto].
Qed.

Lemma getBucket_elem (k : string) (es : list Expense) (g : GroupedExpenses) :
  NoDup (map fst g) -> (k, es) ∈ g -> getBucket k g = Some es.
Proof.
  induction g as [| [k' es'] rest IH]; simpl; intros Hnd Hin.
  - now apply elem_of_nil in Hin.
  - apply NoDup_cons in Hnd as [Hk Hnd].
    apply elem_of_cons in Hin as [Heq | Hin].
    + injection Heq as <- <-. now rewrite String.eqb_refl.
    + destruct (String.eqb_spec k' k) as [-> | _]; [| now apply IH].
      exfalso. apply Hk. apply list_elem_of_fmap. now exists (k, es).
Qed.

Variable monthKey : string -> string.
Variable getTime : string -> option Z.

Lemma groupExpensesByMonth_snoc (l : list Expense) (e : Expense) :
  groupExpensesByMonth monthKey (l ++ [e])
  = pushTo (monthKey (createdAt e)) e (groupExpensesByMonth monthKey l).
Proof. unfold groupExpensesByMonth. now rewrite fold_left_app. Qed.

Lemma groupExpensesByMonth_spec (l : list Expense) :
  NoDup (map fst (groupExpensesByMonth monthKey l))
  /\ forall k,
      getBucket k (groupExpensesByMonth monthKey l)
      = match ofMonth monthKey k l with
        | [] => None
        | es => Some es
        end.
Proof.
  induction l as [| e l [IHnd IHb]] using rev_ind.
  - split; [constructor | reflexivity].
  - rewrite groupExpensesByMonth_snoc. split.
    + rewrite keys_pushTo.
      destruct (getBucket _ _) eqn:Hb; [exact IHnd |].
      apply NoDup_app. split; [exact IHnd |].
      split; [| apply NoDup_singleton].
      intros x Hx Hx'. apply list_elem_of_singleton in Hx' as ->.
      now apply getBucket_None in Hb.
    + intros k. rewrite getBucket_pushTo. unfold ofMonth in *.
      rewrite filter_app.
      destruct (String.eqb_spec (monthKey (createdAt e)) k) as [Heq | Hne].
      * rewrite filter_cons_True by exact Heq. rewrite filter_nil.
        rewrite Heq, IHb.
        destruct (filter _ l); reflexivity.
      * rewrite filter_cons_False by exact Hne. rewrite filter_nil.
        now rewrite app_nil_r, IHb.
Qed.

Lemma flatten_groupExpensesByMonth (l : list Expense) :
  flatten (groupExpensesByMonth monthKey l) ≡ₚ l.
Proof.
  induction l as [| e l IH] using rev_ind; [reflexivity |].
  rewrite groupExpensesByMonth_snoc, flatten_pushTo, IH.
  apply Permutation_cons_append.
Qed.

Lemma section_is_month (l : list Expense) (k : string) (es : list Expense) :
  (k, es) ∈ monthSections monthKey getTime l ->
  es = ofMonth monthKey k l /\ es <> [].
Proof.
  unfold monthSections. rewrite sortBy_perm. intros Hin.
  destruct (groupExpensesByMonth_spec l) as [Hnd Hb].
  apply (getBucket_elem _ _ _ Hnd) in Hin. rewrite Hb in Hin.
  destruct (ofMonth monthKey k l); [discriminate |].
  injection Hin as <-. split; [reflexivity | discriminate].
Qed.

(** C4: the month sections partition the expense list: their records,
    concatenated, are the input records with the same multiplicities;
    no month key heads two sections; every section is non-empty and holds
    exactly the records of its month; and the projection is a function
    of the expense list alone, so a second application returns the same
    sections. *)
Theorem month_sections_partition (expenses : list Expense) :
  let sections := monthSections monthKey getTime expenses in
  flatten sections ≡ₚ expenses
  /\ NoDup (map fst sections)
  /\ Forall (fun s => snd s = ofMonth monthKey (fst s) expenses
                      /\ snd s <> [])
            sections
  /\ monthSections monthKey getTime expenses = sections.
Proof.
  intros sections. subst sections. repeat split.
  - unfold monthSections.
    rewrite (flatten_perm _ _ (sortBy_perm _ _)).
    apply flatten_groupExpensesByMonth.
  - unfold monthSections. rewrite sortBy_perm.
    apply groupExpensesByMonth_spec.
  - apply Forall_forall. intros [k es] Hin. simpl.
    now apply section_is_month.
Qed.

End MonthSections.

(** ** Order of the month sections *)

Section SectionOrder.
Import GroupDetail.

Variable getTime : string -> option Z.

Lemma entryLe_true (a b : string * list Expense) :
  parsed getTime a -> parsed getTime b ->
  entryLe getTime a b = true -> datedGe getTime a b.
Proof.
  intros [ta Ha] [tb Hb]. unfold entryLe, compareEntries.
  rewrite Ha, Hb. intros H. exists ta, tb. repeat split; try assumption.
  apply Z.leb_le in H. lia.
Qed.

Lemma entryLe_false (a b : string * list Expense) :
  parsed getTime a -> parsed getTime b ->
  entryLe getTime a b = false -> datedGe getTime b a.
Proof.
  intros [ta Ha] [tb Hb]. unfold entryLe, compareEntries.
  rewrite Ha, Hb. intros H. exists tb, ta. repeat split; try assumption.
  apply Z.leb_gt in H. lia.
Qed.

Lemma datedGe_trans (a b c : string * list Expense) :
  datedGe getTime a b -> datedGe getTime b c -> datedGe getTime a c.
Proof.
  intros (ta & tb & Ha & Hb & Hab) (tb' & tc & Hb' & Hc & Hbc).
  rewrite Hb in Hb'. injection Hb' as <-.
  exists ta, tc. repeat split; try assumption. lia.
Qed.

Lemma insertBy_sorted (x : string * list Expense) (l : GroupedExpenses) :
  parsed getTime x -> Forall (parsed getTime) l ->
  StronglySorted (datedGe getTime) l ->
  StronglySorted (datedGe getTime) (insertBy (entryLe getTime) x l).
Proof.
  intros Hx Hl Hs. induction Hs as [| y l Hs IH Hy]; simpl.
  - constructor; constructor.
  - apply Forall_cons in Hl as [Hpy Hl].
    destruct (entryLe getTime x y) eqn:Hle.
    + apply entryLe_true in Hle; try assumption.
      constructor; [constructor; assumption |].
      constructor; [exact Hle |].
      eapply Forall_impl; [exact Hy |].
      intros z Hz. eapply datedGe_trans; eassumption.
    + apply entryLe_false in Hle; try assumption.
      constructor; [apply IH; assumption |].
      rewrite insertBy_perm. constructor; assumption.
Qed.

Lemma sortBy_sorted (l : GroupedExpenses) :
  Forall (parsed getTime) l ->
  StronglySorted (datedGe getTime) (sortBy (entryLe getTime) l).
Proof.
  induction l as [| x l IH]; simpl; intros Hl; [constructor |].
  apply Forall_cons in Hl as [Hx Hl].
  apply insertBy_sorted; [assumption | | apply IH; assumption].
  now rewrite sortBy_perm.
Qed.

(** X21 (the sort of the month sections): when the Date constructor
    reads every month key of the grouped expenses, the sections are
    rendered latest date first. *)
Lemma sections_latest_first_when_keys_parse
    (monthKey : string -> string) (expenses : list Expense) :
  Forall (parsed getTime) (groupExpensesByMonth monthKey expenses) ->
  StronglySorted (datedGe getTime) (monthSections monthKey getTime expenses).
Proof. apply sortBy_sorted. Qed.

(** A comparator that answers NaN leaves the entries where they are. *)
Lemma sortBy_unparsed (l : GroupedExpenses) :
  Forall (fun a => getTime (fst a) = None) l ->
  sortBy (entryLe getTime) l = l.
Proof.
  induction 1 as [| x l Hx Hl IH]; simpl; [reflexivity |].
  rewrite IH. destruct l as [| y l']; [reflexivity |]. simpl.
  unfold entryLe at 1, compareEntries.
  rewrite Hx. now destruct (getTime (fst y)).
Qed.

End SectionOrder.

(** C3 on the code: on a device where the key of April is "April 2024",
    the key of May is "Mai 2024" and the Date constructor does not read
    "Mai 2024" as an instant later than "April 2024" (it answers Invalid
    Date, or skips the word it does not know), the May section is rendered
    after the April section: the oldest month comes first. *)
Theorem sections_oldest_first_when_key_unparsed
    (monthKey : string -> string) (getTime : string -> option Z) :
  monthKey (createdAt aprilRent) = "April 2024" ->
  monthKey (createdAt mayPower) = "Mai 2024" ->
  (forall ta tb, getTime "April 2024" = Some ta ->
                 getTime "Mai 2024" = Some tb -> (tb <= ta)%Z) ->
  GroupDetail.monthSections monthKey getTime [aprilRent; mayPower]
  = [("April 2024", [aprilRent]); ("Mai 2024", [mayPower])].
Proof.
  intros Ha Hm Ht.
  unfold GroupDetail.monthSections, GroupDetail.groupExpensesByMonth.
  simpl in Ha, Hm. simpl fold_left. rewrite Ha. simpl. rewrite Hm. simpl.
  unfold GroupDetail.entryLe, GroupDetail.compareEntries. simpl.
  destruct (getTime "Mai 2024") as [tb |] eqn:Hb; [| reflexivity].
  destruct (getTime "April 2024") as [ta |] eqn:Hap; [| reflexivity].
  specialize (Ht ta tb eq_refl eq_refl).
  destruct (Z.leb_spec (tb - ta) 0); [reflexivity | lia].
Qed.

Lemma sections_oldest_first_when_key_unparsed_witness :
  GroupDetail.monthSections germanMonthKey (fun _ => None)
                            [aprilRent; mayPower]
  = [("April 2024", [aprilRent]); ("Mai 2024", [mayPower])].
Proof.
  apply (sections_oldest_first_when_key_unparsed
           germanMonthKey (fun _ => None));
    [reflexivity | reflexivity | discriminate].
Defined.

(** ** The ledger rules *)

Section Ledger.
Import LedgerEngine.

Lemma total_insert_fresh (k : string) (v : Z) (b : gmap string Z) :
  b !! k = None -> total (<[k := v]> b) = (v + total b)%Z.
Proof.
  intros H. unfold total. rewrite map_fold_insert_L; [reflexivity | | exact H].
  intros; lia.
Qed.

Lemma total_insert (k : string) (v : Z) (b : gmap string Z) :
  total (<[k := v]> b) = (total b - bal b k + v)%Z.
Proof.
  unfold bal. destruct (b !! k) as [x |] eqn:H; simpl.
  - rewrite <- (insert_delete_id b k x H) at 2.
    rewrite <- insert_delete_eq.
    rewrite !total_insert_fresh by apply lookup_delete_eq. lia.
  - rewrite total_insert_fresh by exact H. lia.
Qed.

Lemma total_adjust (m : string) (d : Z) (b : gmap string Z) :
  total (adjust m d b) = (total b + d)%Z.
Proof. unfold adjust. rewrite total_insert. unfold bal. lia. Qed.

Lemma dom_adjust (m : string) (d : Z) (b : gmap string Z) :
  dom (adjust m d b) = {[m]} ∪ dom b.
Proof. unfold adjust. apply dom_insert_L. Qed.

Lemma bal_adjust (m m' : string) (d : Z) (b : gmap string Z) :
  bal (adjust m d b) m' = (bal b m' + if decide (m = m') then d else 0)%Z.
Proof.
  unfold bal, adjust. rewrite lookup_insert.
  destruct (decide (m = m')) as [-> |]; simpl; lia.
Qed.

Lemma total_debits (sh : list (string * Z)) (b : gmap string Z) :
  total (fold_left debit sh b) = (total b - sumZ (map snd sh))%Z.
Proof.
  revert b. induction sh as [| [m s] sh IH]; intros b; [simpl; lia |].
  cbn [fold_left]. rewrite IH. unfold debit. rewrite total_adjust.
  simpl. lia.
Qed.

Lemma dom_debits (sh : list (string * Z)) (b : gmap string Z) :
  dom (fold_left debit sh b) = list_to_set (map fst sh) ∪ dom b.
Proof.
  revert b. induction sh as [| [m s] sh IH]; intros b; simpl.
  - set_solver.
  - rewrite IH. unfold debit. rewrite dom_adjust. simpl. set_solver.
Qed.

Lemma bal_debits (sh : list (string * Z)) (b : gmap string Z) (m : string) :
  bal (fold_left debit sh b) m = (bal b m - owed m sh)%Z.
Proof.
  revert b. unfold owed.
  induction sh as [| [m' s] sh IH]; intros b; cbn [fold_left]; [simpl; lia |].
  rewrite IH. unfold debit. rewrite bal_adjust. cbn [fst snd].
  destruct (decide (m' = m)) as [-> | Hne].
  - rewrite filter_cons_True by reflexivity. simpl. lia.
  - rewrite filter_cons_False by exact Hne. lia.
Qed.

Lemma fst_sharesFrom (q r i : Z) (split : list string) :
  map fst (sharesFrom q r i split) = split.
Proof.
  revert i. induction split as [| m rest IH]; intros i; simpl;
    [reflexivity | now rewrite IH].
Qed.

Lemma sum_sharesFrom (q r i : Z) (split : list string) :
  sumZ (map snd (sharesFrom q r i split))
  = (q * Z.of_nat (length split)
     + Z.max 0 (Z.min (i + Z.of_nat (length split)) r - i))%Z.
Proof.
  revert i. induction split as [| m rest IH]; intros i.
  - simpl. lia.
  - cbn [sharesFrom map snd sumZ fold_right length].
    fold (sumZ (map snd (sharesFrom q r (i + 1) rest))).
    rewrite IH. destruct (Z.ltb_spec i r); lia.
Qed.

(** The shares of an amount over a non-empty split set add up to it. *)
Lemma sum_shares (amount : Z) (split : list string) :
  split <> [] -> sumZ (map snd (shares amount split)) = amount.
Proof.
  intros Hne. unfold shares. rewrite sum_sharesFrom.
  assert (Hn : (0 < Z.of_nat (length split))%Z)
    by (destruct split; [congruence | simpl; lia]).
  pose proof (Z.mod_pos_bound amount _ Hn).
  pose proof (Z.div_mod amount (Z.of_nat (length split))).
  lia.
Qed.

(** The share at position [i]: the quotient, and one unit more below the
    remainder. *)
Lemma sharesFrom_lookup (q r j : Z) (split : list string) (i : nat)
    (m : string) :
  split !! i = Some m ->
  sharesFrom q r j split !! i
  = Some (m, (q + if (j + Z.of_nat i <? r)%Z then 1 else 0)%Z).
Proof.
  revert i j. induction split as [| m' rest IH]; intros i j H.
  - discriminate.
  - destruct i as [| i]; simpl in *.
    + injection H as ->. now rewrite Z.add_0_r.
    + rewrite (IH i (j + 1)%Z H).
      replace (j + 1 + Z.of_nat i)%Z with (j + Z.pos (Pos.of_succ_nat i))%Z
        by lia.
      reflexivity.
Qed.

Lemma isMember_spec (ms : list string) (m : string) :
  isMember ms m = true <-> m ∈ ms.
Proof.
  unfold isMember. rewrite existsb_exists, list_elem_of_In. split.
  - intros (x & Hx & Heq). apply String.eqb_eq in Heq. now subst.
  - intros H. exists m. split; [exact H | apply String.eqb_refl].
Qed.

Lemma forallb_isMember (ms split : list string) :
  forallb (isMember ms) split = true ->
  (list_to_set split : gset string) ⊆ list_to_set ms.
Proof.
  rewrite forallb_forall. intros H x Hx.
  apply elem_of_list_to_set in Hx. apply elem_of_list_to_set.
  apply isMember_spec, H. now apply list_elem_of_In.
Qed.

Lemma total_zeroBalances (ms : list string) : total (zeroBalances ms) = 0%Z.
Proof.
  induction ms as [| m ms IH]; simpl.
  - unfold total. apply map_fold_empty.
  - rewrite total_insert. unfold bal.
    destruct (zeroBalances ms !! m) as [x |] eqn:H; simpl; [| lia].
    enough (x = 0%Z) by lia.
    clear IH. revert x H. induction ms as [| m' ms IH]; simpl; intros x H.
    + now rewrite lookup_empty in H.
    + rewrite lookup_insert in H. destruct (decide (m' = m)); [congruence |].
      now apply IH.
Qed.

Lemma dom_zeroBalances (ms : list string) :
  dom (zeroBalances ms) = list_to_set ms.
Proof.
  induction ms as [| m ms IH]; simpl.
  - apply dom_empty_L.
  - now rewrite dom_insert_L, IH.
Qed.

(** One valid record moves money between members and neither creates
    nor destroys it. *)
Lemma applyRecord_valid (ms : list string) (r : Rec) (b : gmap string Z) :
  validRec ms r = true ->
  dom b = list_to_set ms ->
  total (applyRecord b r) = total b
  /\ dom (applyRecord b r) = list_to_set ms.
Proof.
  unfold validRec. rewrite !andb_true_iff.
  intros ((((Hamt & Hne) & Hsplit) & Hpayer) & Hkind) Hdom.
  apply isMember_spec in Hpayer.
  pose proof (forallb_isMember _ _ Hsplit) as Hsub.
  assert (Hp : ({[rec_payer r]} : gset string) ⊆ list_to_set ms)
    by (apply singleton_subseteq_l, elem_of_list_to_set, Hpayer).
  unfold applyRecord. destruct (rec_kind r).
  - rewrite total_debits, dom_debits, total_adjust, dom_adjust.
    unfold shares at 2. rewrite fst_sharesFrom, Hdom.
    rewrite sum_shares by (destruct (rec_split r); [discriminate | congruence]).
    split; [lia | set_solver].
  - destruct (rec_split r) as [| recipient rest]; [discriminate |].
    rewrite !total_adjust, !dom_adjust, Hdom.
    split; [lia | set_solver].
Qed.

Lemma fold_applyRecord_valid (ms : list string) (rs : list Rec)
    (b : gmap string Z) :
  Forall (fun r => validRec ms r = true) rs ->
  dom b = list_to_set ms ->
  total (fold_left applyRecord rs b) = total b
  /\ dom (fold_left applyRecord rs b) = list_to_set ms.
Proof.
  intros Hrs. revert b. induction Hrs as [| r rs Hr _ IH]; intros b Hdom.
  - split; [reflexivity | exact Hdom].
  - cbn [fold_left].
    destruct (applyRecord_valid ms r b Hr Hdom) as [Ht Hd].
    destruct (IH _ Hd) as [Ht' Hd']. split; [congruence | exact Hd'].
Qed.

Lemma validate_None_validRec (ms : list string) (d : Draft) (i : nat)
    (now : Z) :
  validate ms d = None ->
  validRec ms (mkRec i (d_kind d) (d_description d) (d_amount d)
                     (d_payer d) (d_split d) now) = true.
Proof.
  unfold validate, validRec. simpl.
  destruct (Z.leb_spec (d_amount d) 0), (Z.ltb_spec 0 (d_amount d));
    try lia; try discriminate.
  destruct (isExpense (d_kind d)), (JS.truthy (JS.trim (d_description d))),
    (isMember ms (d_payer d)), (JS.isNil (d_split d)),
    (forallb (isMember ms) (d_split d)),
    (length (d_split d) =? 1)%nat; simpl; try discriminate; reflexivity.
Qed.

Lemma dropRec_Forall (P : Rec -> Prop) (i : nat) (rs : list Rec) :
  Forall P rs -> Forall P (dropRec i rs).
Proof.
  induction 1 as [| r rs Hr Hrs IH]; simpl; [constructor |].
  destruct (rec_id r =? i)%nat; [exact Hrs | now constructor].
Qed.

Lemma max_id_bound (rs : list Rec) :
  let top := fold_right (fun r acc => Nat.max (rec_id r) acc) 0%nat rs in
  Forall (fun r => (rec_id r < S top)%nat) rs.
Proof.
  induction rs as [| r rs IH]; [constructor |].
  cbn [fold_right]. constructor; [lia |].
  eapply Forall_impl; [exact IH |]. intros x Hx. simpl in Hx. lia.
Qed.

Lemma built_wellFormed (L : Ledger) : built L -> wellFormed L.
Proof.
  induction 1 as [ms rs L Hc
                 | now d L L' r _ [IHv IHi] Ha
                 | i L L' r _ [IHv IHi] Hr].
  - unfold construct in Hc.
    destruct (forallb (validRec ms) rs) eqn:Hv; [| discriminate].
    injection Hc as <-. split; simpl.
    + apply Forall_forall. intros r Hr.
      rewrite forallb_forall in Hv. apply Hv. now apply list_elem_of_In.
    + apply max_id_bound.
  - unfold addRecord in Ha.
    destruct (validate (members L) d) eqn:Hv; [discriminate |].
    injection Ha as <- <-. split; simpl.
    + apply Forall_app. split; [exact IHv |].
      constructor; [| constructor]. now apply validate_None_validRec.
    + apply Forall_app. split.
      * eapply Forall_impl; [exact IHi |]. intros x Hx. simpl in Hx. lia.
      * constructor; [simpl; lia | constructor].
  - unfold removeRecord in Hr.
    destruct (findRec i (records L)); [| discriminate].
    injection Hr as <- <-. split; simpl; now apply dropRec_Forall.
Qed.

(** C1: for every ledger built from a member list by accepted additions
    (and removals), the balances are those of the members and add up to
    zero. *)
Theorem balances_sum_to_zero (L : Ledger) :
  built L ->
  total (computeBalances L) = 0%Z
  /\ dom (computeBalances L) = list_to_set (members L).
Proof.
  intros HL. destruct (built_wellFormed L HL) as [Hv _].
  unfold computeBalances.
  destruct (fold_applyRecord_valid (members L) (records L)
              (zeroBalances (members L)) Hv (dom_zeroBalances _)) as [Ht Hd].
  split; [| exact Hd]. rewrite Ht. apply total_zeroBalances.
Qed.

Lemma dinnerLedger_built : built dinnerLedger.
Proof.
  eapply (built_add 1714000000 dinner (mkLedger ["A"; "B"; "C"] [] 0 1)).
  - apply (built_construct ["A"; "B"; "C"] []). reflexivity.
  - reflexivity.
Defined.

Lemma balances_sum_to_zero_witness :
  total (computeBalances dinnerLedger) = 0%Z
  /\ dom (computeBalances dinnerLedger) = list_to_set ["A"; "B"; "C"].
Proof. apply (balances_sum_to_zero dinnerLedger dinnerLedger_built). Defined.

Lemma bal_applyRecord_expense (b : gmap string Z) (r : Rec) (m : string) :
  rec_kind r = expense ->
  bal (applyRecord b r) m
  = (bal b m + (if decide (rec_payer r = m) then rec_amount r else 0)
     - owed m (shares (rec_amount r) (rec_split r)))%Z.
Proof.
  intros Hk. unfold applyRecord. rewrite Hk.
  now rewrite bal_debits, bal_adjust.
Qed.

(** C2, as the rule of section 4.1 has it: the shares of an expense over
    a non-empty split set are the quotient, plus one minor unit for each
    of the first (amount mod splitCount) members in iteration order; they
    add up to the amount; computeBalances credits the payer the amount
    and debits every member what its entries of the split set owe; and
    for the dinner of 10000 shared by A, B and C the extra unit falls on
    A, the first member: the balances are A +6666, B -3333, C -3333. *)
Theorem shares_add_up_to_amount (amount : Z) (split : list string) :
  split <> [] ->
  let n := Z.of_nat (length split) in
  sumZ (map snd (shares amount split)) = amount
  /\ (forall (i : nat) (m : string),
        split !! i = Some m ->
        shares amount split !! i
        = Some (m, (amount / n
                    + if (Z.of_nat i <? amount mod n)%Z then 1 else 0)%Z))
  /\ (forall (b : gmap string Z) (r : Rec) (m : string),
        rec_kind r = expense -> rec_amount r = amount -> rec_split r = split ->
        bal (applyRecord b r) m
        = (bal b m + (if decide (rec_payer r = m) then amount else 0)
           - owed m (shares amount split))%Z)
  /\ computeBalances dinnerLedger !! "A" = Some 6666%Z
  /\ computeBalances dinnerLedger !! "B" = Some (-3333)%Z
  /\ computeBalances dinnerLedger !! "C" = Some (-3333)%Z.
Proof.
  intros Hne n. split; [now apply sum_shares |]. split.
  { intros i m Hi. unfold shares.
    now rewrite (sharesFrom_lookup _ _ _ _ _ _ Hi). }
  split.
  { intros b r m Hk <- <-. now apply bal_applyRecord_expense. }
  repeat split; vm_compute; reflexivity.
Qed.

Lemma shares_add_up_to_amount_witness :
  sumZ (map snd (shares 10000 ["A"; "B"; "C"])) = 10000%Z
  /\ shares 10000 ["A"; "B"; "C"] !! 0%nat = Some ("A", 3334%Z).
Proof.
  destruct (shares_add_up_to_amount 10000 ["A"; "B"; "C"]) as (Hs & Hi & _).
  - discriminate.
  - split; [exact Hs | exact (Hi 0%nat "A" eq_refl)].
Defined.

(** C2 fails on its example: under the rule the extra minor unit goes to
    A, the first member of the split set, not to C; A ends at +6666 and C
    at -3333. *)
Lemma dinner_remainder_goes_to_first_member :
  map snd (shares 10000 ["A"; "B"; "C"]) = [3334; 3333; 3333]%Z
  /\ ~ (computeBalances dinnerLedger !! "A" = Some 6667%Z
        /\ computeBalances dinnerLedger !! "B" = Some (-3333)%Z
        /\ computeBalances dinnerLedger !! "C" = Some (-3334)%Z).
Proof.
  split; [reflexivity |]. intros (HA & _ & _).
  vm_compute in HA. discriminate HA.
Qed.

Lemma findRec_fresh (rs : list Rec) (r : Rec) :
  Forall (fun x => (rec_id x < rec_id r)%nat) rs ->
  findRec (rec_id r) (rs ++ [r]) = Some r
  /\ dropRec (rec_id r) (rs ++ [r]) = rs.
Proof.
  induction 1 as [| x rs Hx _ [IHf IHd]]; simpl.
  - now rewrite Nat.eqb_refl.
  - destruct (Nat.eqb_spec (rec_id x) (rec_id r)); [lia |].
    now rewrite IHf, IHd.
Qed.

Lemma removing_settlement_keeps_total (i : nat) (L L' : Ledger) (r : Rec) :
  removeRecord i L = inr (L', r) ->
  rec_kind r = settlement ->
  totalExpenses L' = totalExpenses L.
Proof.
  unfold removeRecord. destruct (findRec i (records L)); [| discriminate].
  intros [= <- <-] Hk. simpl. unfold expenseAmount. rewrite Hk. simpl. lia.
Qed.

(** C7: a settlement of [amount] from [payer] to the single recipient of
    its split set is accepted; the recipient's balance rises by the
    amount and the payer's falls by it, every other balance is as before;
    the total of the expenses is the same after the settlement is added,
    and the same again after it is removed. *)
Theorem settlement_transfers (L : Ledger) (now amount : Z)
    (payer recipient note : string) :
  built L ->
  (0 < amount)%Z ->
  payer ∈ members L ->
  recipient ∈ members L ->
  exists L' r,
    addRecord now (mkDraft settlement note amount payer [recipient]) L
    = inr (L', r)
    /\ (forall m,
          bal (computeBalances L') m
          = (bal (computeBalances L) m
             + (if decide (recipient = m) then amount else 0)
             - (if decide (payer = m) then amount else 0))%Z)
    /\ totalExpenses L' = totalExpenses L
    /\ exists L'',
        removeRecord (rec_id r) L' = inr (L'', r)
        /\ totalExpenses L'' = totalExpenses L
        /\ records L'' = records L.
Proof.
  intros HL Hpos Hp Hr.
  destruct (built_wellFormed L HL) as [_ Hids].
  apply isMember_spec in Hp, Hr.
  unfold addRecord, validate. simpl.
  destruct (Z.leb_spec amount 0); [lia |].
  rewrite Hp, Hr. simpl.
  eexists _, _. split; [reflexivity |]. split; [| split; [reflexivity |]].
  - intros m. unfold computeBalances. simpl.
    rewrite fold_left_app. simpl. unfold applyRecord at 1. simpl.
    rewrite !bal_adjust.
    destruct (decide (recipient = m)), (decide (payer = m)); lia.
  - unfold removeRecord. simpl.
    set (r := mkRec (nextId L) settlement note amount payer [recipient] now).
    destruct (findRec_fresh (records L) r Hids) as [Hf Hd].
    change (nextId L) with (rec_id r) at 1 2.
    rewrite Hf, Hd. eexists. split; [reflexivity |].
    split; [| reflexivity].
    subst r. unfold expenseAmount. simpl. lia.
Qed.

(** Two members; B settles 5000 minor units with A. *)
Lemma settlement_transfers_witness :
  let L := mkLedger ["A"; "B"] [] 0 1 in
  exists L' r,
    addRecord 1714000000 (mkDraft settlement "" 5000 "B" ["A"]) L = inr (L', r)
    /\ bal (computeBalances L') "A" = (bal (computeBalances L) "A" + 5000)%Z
    /\ bal (computeBalances L') "B" = (bal (computeBalances L) "B" - 5000)%Z
    /\ totalExpenses L' = totalExpenses L.
Proof.
  intros L.
  destruct (settlement_transfers L 1714000000 5000 "B" "A" "")
    as (L' & r & Ha & Hb & Ht & _).
  - apply (built_construct ["A"; "B"] []). reflexivity.
  - lia.
  - apply list_elem_of_In. simpl. tauto.
  - apply list_elem_of_In. simpl. tauto.
  - exists L', r. split; [exact Ha |].
    split; [rewrite (Hb "A"); simpl; lia |].
    split; [rewrite (Hb "B"); simpl; lia | exact Ht].
Defined.

End Ledger.

(** ** Texts and arrays of the forms *)

Section FormTexts.

Lemma arrayIncludes_spec (l : list string) (x : string) :
  JS.arrayIncludes l x = true <-> x ∈ l.
Proof.
  unfold JS.arrayIncludes. rewrite existsb_exists, list_elem_of_In. split.
  - intros (y & Hy & Heq). apply String.eqb_eq in Heq. now subst.
  - intros H. exists x. split; [exact H | apply String.eqb_refl].
Qed.

Lemma arrayIncludes_false (l : list string) (x : string) :
  JS.arrayIncludes l x = false <-> x ∉ l.
Proof.
  rewrite <- arrayIncludes_spec. destruct (JS.arrayIncludes l x); split;
    congruence.
Qed.

Lemma trimStartL_length (l : list ascii) :
  (length (JS.trimStartL l) <= length l)%nat.
Proof.
  induction l as [| c l IH]; simpl; [lia |].
  destruct (JS.isWhiteSpace c); simpl; lia.
Qed.

Lemma trimStartL_idem (l : list ascii) :
  JS.trimStartL (JS.trimStartL l) = JS.trimStartL l.
Proof.
  induction l as [| c l IH]; simpl; [reflexivity |].
  destruct (JS.isWhiteSpace c) eqn:Hc; [exact IH |].
  simpl. now rewrite Hc.
Qed.

Lemma trimStartL_suffix (l : list ascii) :
  exists p, l = (p ++ JS.trimStartL l)%list.
Proof.
  induction l as [| c l [p IH]]; simpl; [now exists [] |].
  destruct (JS.isWhiteSpace c).
  - exists (c :: p). simpl. now rewrite <- IH.
  - now exists [].
Qed.

Lemma trimStartL_fixed_prefix (x y : list ascii) :
  x <> [] ->
  JS.trimStartL (x ++ y) = (x ++ y)%list ->
  JS.trimStartL x = x.
Proof.
  destruct x as [| c x]; [congruence |]. intros _. simpl.
  destruct (JS.isWhiteSpace c); [| reflexivity].
  intros H. pose proof (trimStartL_length (x ++ y)) as Hlen.
  rewrite H in Hlen. simpl in Hlen. lia.
Qed.

Lemma trimL_idem (l : list ascii) : JS.trimL (JS.trimL l) = JS.trimL l.
Proof.
  unfold JS.trimL.
  pose proof (trimStartL_idem l) as Ha.
  set (a := JS.trimStartL l) in *.
  destruct (trimStartL_suffix (rev a)) as [p Hp].
  set (b := JS.trimStartL (rev a)) in *.
  assert (Hrb : JS.trimStartL (rev b) = rev b).
  { destruct b as [| c b'] eqn:Hb; [reflexivity |].
    apply (trimStartL_fixed_prefix (rev (c :: b')) (rev p)).
    - intros H. apply (f_equal (@length ascii)) in H.
      rewrite length_rev in H. discriminate H.
    - rewrite <- rev_app_distr, <- Hp, rev_involutive. exact Ha. }
  rewrite Hrb, rev_involutive. subst b. now rewrite trimStartL_idem.
Qed.

Lemma trim_idem (s : string) : JS.trim (JS.trim s) = JS.trim s.
Proof.
  unfold JS.trim.
  now rewrite list_ascii_of_string_of_list_ascii, trimL_idem.
Qed.

Lemma truthy_nonempty (s : string) : JS.truthy s = true <-> s <> "".
Proof. destruct s; simpl; split; congruence. Qed.

Lemma blank_trimL (s : string) :
  blank s = true -> JS.trimL (list_ascii_of_string s) = [].
Proof.
  unfold blank, JS.trim.
  destruct (JS.trimL (list_ascii_of_string s)); [reflexivity | discriminate].
Qed.

Lemma startsWithL_refl (l : list ascii) : JS.startsWithL l l = true.
Proof.
  induction l as [| c l IH]; simpl; [reflexivity |].
  now rewrite Ascii.eqb_refl.
Qed.

Lemma includes_refl (s : string) : JS.includes s s = true.
Proof.
  unfold JS.includes. destruct (list_ascii_of_string s) as [| c l] eqn:E;
    [reflexivity |].
  cbn [JS.includesL]. now rewrite startsWithL_refl.
Qed.

End FormTexts.

(** ** AddExpenseModal: the split selection and what is submitted *)

Section ExpenseSelection.
Import AddExpenseModal.

Lemma filter_ne_NoDup (m : string) (l : list string) :
  NoDup l -> NoDup (filter (fun x => x <> m) l).
Proof. apply NoDup_filter. Qed.

Lemma filter_ne_absent (m : string) (l : list string) :
  m ∉ l -> filter (fun x => x <> m) l = l.
Proof.
  induction l as [| y l IH]; [reflexivity |].
  rewrite not_elem_of_cons. intros [Hne Hl].
  rewrite filter_cons_True by congruence. now rewrite IH.
Qed.

Lemma filter_ne_snoc (m : string) (l : list string) :
  filter (fun x => x <> m) (l ++ [m])%list = filter (fun x => x <> m) l.
Proof.
  rewrite filter_app, filter_cons_False by (intros H; now apply H).
  now rewrite filter_nil, app_nil_r.
Qed.

Lemma filter_ne_perm (m : string) (l : list string) :
  NoDup l -> m ∈ l -> (filter (fun x => x <> m) l ++ [m])%list ≡ₚ l.
Proof.
  induction l as [| y l IH]; intros Hnd Hin.
  - now apply elem_of_nil in Hin.
  - apply NoDup_cons in Hnd as [Hy Hnd].
    destruct (decide (y = m)) as [-> | Hne].
    + rewrite filter_cons_False by (intros H; now apply H).
      rewrite filter_ne_absent by exact Hy.
      symmetry. apply Permutation_cons_append.
    + rewrite filter_cons_True by exact Hne.
      apply elem_of_cons in Hin as [-> | Hin]; [congruence |].
      simpl. now rewrite IH.
Qed.

Lemma toggled_NoDup (member : string) (st : State) :
  NoDup (selectedMembers st) ->
  NoDup (selectedMembers (handleToggleMember member st)).
Proof.
  unfold handleToggleMember. simpl. intros Hnd.
  destruct (JS.arrayIncludes (selectedMembers st) member) eqn:Hinc.
  - now apply filter_ne_NoDup.
  - apply arrayIncludes_false in Hinc.
    apply NoDup_app. split; [exact Hnd |].
    split; [| apply NoDup_singleton].
    intros x Hx Hx'. apply list_elem_of_singleton in Hx' as ->.
    contradiction.
Qed.

(** X1 (handleToggleMember): a press on a split row flips the membership
    of that member in the selection and of no other member, keeps a
    duplicate-free selection duplicate-free, and touches no other field. *)
Theorem toggle_flips_one_member (member : string) (st : State) :
  let st' := handleToggleMember member st in
  (member ∈ selectedMembers st' <-> member ∉ selectedMembers st)
  /\ (forall x, x <> member ->
        (x ∈ selectedMembers st' <-> x ∈ selectedMembers st))
  /\ (NoDup (selectedMembers st) -> NoDup (selectedMembers st'))
  /\ st' = setSelectedMembers (selectedMembers st') st.
Proof.
  unfold handleToggleMember. simpl.
  destruct (JS.arrayIncludes (selectedMembers st) member) eqn:Hinc.
  - apply arrayIncludes_spec in Hinc.
    split; [| split; [| split; [| reflexivity]]].
    + split; [| intros Hout; contradiction].
      intros Hin. apply list_elem_of_filter in Hin as [Hne _]. congruence.
    + intros x Hx. rewrite list_elem_of_filter. tauto.
    + apply filter_ne_NoDup.
  - apply arrayIncludes_false in Hinc.
    split; [| split; [| split; [| reflexivity]]].
    + split; [intros _; exact Hinc | intros _].
      apply elem_of_app. right. now apply list_elem_of_singleton.
    + intros x Hx. rewrite elem_of_app, list_elem_of_singleton. tauto.
    + intros Hnd. apply NoDup_app. split; [exact Hnd |].
      split; [| apply NoDup_singleton].
      intros x Hx Hx'. apply list_elem_of_singleton in Hx' as ->.
      contradiction.
Qed.

(** X2 (handleToggleMember): on a duplicate-free selection two presses on
    the same row give the selection back, as the same list when the
    member was not selected and with the member moved to the end when it
    was. *)
Theorem toggle_twice_restores_selection (member : string) (st : State) :
  NoDup (selectedMembers st) ->
  let twice := handleToggleMember member (handleToggleMember member st) in
  selectedMembers twice ≡ₚ selectedMembers st
  /\ (member ∉ selectedMembers st -> twice = st)
  /\ (member ∈ selectedMembers st ->
      selectedMembers twice
      = (filter (fun x => x <> member) (selectedMembers st) ++ [member])%list).
Proof.
  intros Hnd. unfold handleToggleMember. simpl.
  destruct (JS.arrayIncludes (selectedMembers st) member) eqn:Hinc.
  - apply arrayIncludes_spec in Hinc.
    assert (Hout : JS.arrayIncludes
                     (filter (fun x => x <> member) (selectedMembers st))
                     member = false).
    { apply arrayIncludes_false. intros H.
      apply list_elem_of_filter in H as [Hne _]. now apply Hne. }
    rewrite Hout. split; [now apply filter_ne_perm |].
    split; [intros Hout'; contradiction | reflexivity].
  - assert (Hin : JS.arrayIncludes (selectedMembers st ++ [member])%list
                                   member = true).
    { apply arrayIncludes_spec, elem_of_app. right.
      apply list_elem_of_singleton. reflexivity. }
    rewrite Hin. apply arrayIncludes_false in Hinc.
    rewrite filter_ne_snoc, filter_ne_absent by exact Hinc.
    split; [reflexivity |].
    split; [intros _; now destruct st | intros Hin'; contradiction].
Qed.

Lemma toggle_twice_restores_selection_witness :
  let st := mkState "Taxi" "18" "Asha" ["Asha"; "Ravi"; "Mina"] None false in
  selectedMembers (handleToggleMember "Ravi" (handleToggleMember "Ravi" st))
  ≡ₚ ["Asha"; "Ravi"; "Mina"].
Proof.
  intros st.
  apply (toggle_twice_restores_selection "Ravi" st).
  simpl. repeat constructor;
    rewrite ?elem_of_cons, ?elem_of_nil; intuition congruence.
Defined.

End ExpenseSelection.

Section ExpenseSubmission.
Import AddExpenseModal.

Lemma handleSubmit_Some (st : State) (c : Call) :
  snd (handleSubmit st) = Some c ->
  blank (description st) = false
  /\ blank (amount st) = false
  /\ JS.isNaN (JS.Number (amount st)) = false
  /\ blank (paidBy st) = false
  /\ selectedMembers st <> []
  /\ fst (handleSubmit st) = clearFields st
  /\ c = mkCall (JS.trim (description st)) (JS.Number (amount st))
                (JS.trim (paidBy st)) (selectedMembers st).
Proof.
  unfold handleSubmit, blank.
  destruct (negb (JS.truthy (JS.trim (description st)))); [discriminate |].
  destruct (negb (JS.truthy (JS.trim (amount st)))); [discriminate |].
  destruct (JS.isNaN (JS.Number (amount st))); [discriminate |].
  destruct (negb (JS.truthy (JS.trim (paidBy st)))); [discriminate |].
  destruct (selectedMembers st) as [| m ms] eqn:Hsel; [discriminate |].
  simpl. intros [= <-]. repeat split; congruence.
Qed.

Lemma handleSubmit_selection (st : State) :
  selectedMembers (fst (handleSubmit st)) = selectedMembers st
  /\ paidBy (fst (handleSubmit st)) = paidBy st
  \/ selectedMembers (fst (handleSubmit st)) = []
     /\ paidBy (fst (handleSubmit st)) = "".
Proof.
  destruct (handleSubmit_cases st) as [(msg & _ & ->) | (c & ->)];
    [left | right]; split; reflexivity.
Qed.

(** The selection and the payer of a reachable state come from the
    member list. *)
Lemma reachable_selection (members : list string) (st : State) :
  reachable members st ->
  Forall (fun m => m ∈ members) (selectedMembers st)
  /\ (NoDup members -> NoDup (selectedMembers st))
  /\ (paidBy st = "" \/ paidBy st ∈ members).
Proof.
  induction 1 as [| e st Hst (IHsub & IHnd & IHp) Hoff].
  - split; [constructor |]. split; [intros _; constructor | now left].
  - destruct e; simpl in *; try (split; [| split]; assumption).
    + split; [| split; [tauto | exact IHp]].
      apply Forall_forall. tauto.
    + destruct Hoff as [_ Hm]. split; [| split]; auto.
    + split; [| split; [| exact IHp]].
      * destruct (JS.arrayIncludes (selectedMembers st) member).
        -- apply Forall_forall. intros x Hx.
           apply list_elem_of_filter in Hx as [_ Hx].
           rewrite Forall_forall in IHsub. now apply IHsub.
        -- apply Forall_app. split; [exact IHsub |]. now constructor.
      * intros Hnd. apply toggled_NoDup. now apply IHnd.
    + destruct (handleSubmit_selection st) as [[-> ->] | [-> ->]].
      * split; [| split]; assumption.
      * split; [constructor |]. split; [intros _; constructor | now left].
Qed.

(** X3 (handleSubmit, handleToggleMember and the effect on [visible]):
    whatever the user did to the modal of a group with duplicate-free
    members, a submission carries a non-empty, duplicate-free split set
    of group members, a payer that is the trimmed name of a group member
    and is not empty, an amount that is a number, and a non-empty
    description without surrounding white space. *)
Theorem submitted_expense_is_well_formed (members : list string)
    (st : State) (c : Call) :
  reachable members st ->
  NoDup members ->
  snd (handleSubmit st) = Some c ->
  call_splitBetween c <> []
  /\ NoDup (call_splitBetween c)
  /\ Forall (fun m => m ∈ members) (call_splitBetween c)
  /\ (exists m, m ∈ members /\ call_paidBy c = JS.trim m)
  /\ call_paidBy c <> ""
  /\ JS.isNaN (call_amount c) = false
  /\ call_description c <> ""
  /\ JS.trim (call_description c) = call_description c.
Proof.
  intros Hst Hnd Hc.
  destruct (reachable_selection members st Hst) as (Hsub & Hdup & Hp).
  destruct (handleSubmit_Some st c Hc)
    as (Hd & Ha & Hnan & Hpb & Hsel & _ & ->).
  simpl. unfold blank in *.
  apply negb_false_iff in Hd, Hpb.
  split; [exact Hsel |]. split; [now apply Hdup |].
  split; [exact Hsub |]. split.
  { destruct Hp as [Hp | Hp]; [| now exists (paidBy st)].
    rewrite Hp in Hpb. discriminate Hpb. }
  split; [now apply truthy_nonempty |]. split; [exact Hnan |].
  split; [now apply truthy_nonempty | apply trim_idem].
Qed.

Lemma submitted_expense_is_well_formed_witness :
  let members := ["Asha"; "Ravi"; "Mina"] in
  let st := mkState " Taxi " "18.5" "Ravi" ["Asha"; "Ravi"] None false in
  let c := mkCall "Taxi" (JS.Finite false 185 (-1)) "Ravi" ["Asha"; "Ravi"] in
  snd (handleSubmit st) = Some c
  /\ NoDup (call_splitBetween c)
  /\ Forall (fun m => m ∈ members) (call_splitBetween c).
Proof.
  intros members st c.
  assert (Hst : reachable members st).
  { apply (reachable_step members (ToggleMember "Mina")
             (mkState " Taxi " "18.5" "Ravi" ["Asha"; "Ravi"; "Mina"] None
                      false)).
    - apply (reachable_step members (PickPayer "Ravi")
               (mkState " Taxi " "18.5" "" ["Asha"; "Ravi"; "Mina"] None true)).
      + apply (reachable_step members PressPaidBy
                 (mkState " Taxi " "18.5" "" ["Asha"; "Ravi"; "Mina"] None
                          false)).
        * apply (reachable_step members (ChangeAmount "18.5")
                   (mkState " Taxi " "" "" ["Asha"; "Ravi"; "Mina"] None
                            false)).
          -- apply (reachable_step members (ChangeDescription " Taxi ")
                      (mkState "" "" "" ["Asha"; "Ravi"; "Mina"] None false)).
             ++ apply (reachable_step members Shown initial);
                  [apply reachable_initial | exact I].
             ++ exact I.
          -- exact I.
        * exact I.
      + split; [reflexivity |]. apply list_elem_of_In. simpl. tauto.
    - apply list_elem_of_In. simpl. tauto. }
  assert (Hnd : NoDup members).
  { repeat constructor;
      rewrite ?elem_of_cons, ?elem_of_nil; intuition congruence. }
  destruct (submitted_expense_is_well_formed members st c Hst Hnd eq_refl)
    as (_ & Hdup & Hsub & _).
  split; [reflexivity |]. split; assumption.
Defined.

(** X4 (handleSubmit, the amount guard): Number of a blank text is 0 and
    not NaN, so the isNaN test lets a blank amount through; such an amount
    is refused by the trim test, with the amount message once the
    description is filled in. *)
Theorem blank_amount_is_not_NaN (st : State) :
  blank (amount st) = true ->
  JS.Number (amount st) = JS.Finite false 0 0
  /\ JS.isNaN (JS.Number (amount st)) = false
  /\ (blank (description st) = false ->
      handleSubmit st
      = (setError (Some "Please enter a valid amount") st, None)).
Proof.
  intros Hb.
  assert (Hn : JS.Number (amount st) = JS.Finite false 0 0).
  { unfold JS.Number. now rewrite (blank_trimL _ Hb). }
  rewrite Hn. split; [reflexivity |]. split; [reflexivity |].
  intros Hd. apply bad_amount_refused; [exact Hd | now left].
Qed.

Lemma blank_amount_is_not_NaN_witness :
  let st := mkState "Taxi" "   " "Ravi" ["Asha"; "Ravi"] None false in
  JS.Number (amount st) = JS.Finite false 0 0
  /\ handleSubmit st
     = (setError (Some "Please enter a valid amount") st, None).
Proof.
  intros st.
  destruct (blank_amount_is_not_NaN st eq_refl) as (Hn & _ & Hs).
  split; [exact Hn | exact (Hs eq_refl)].
Defined.

(** X5 (handleSubmit): a submission clears the form, so a second press on
    the button right after it submits nothing and asks for a
    description. *)
Theorem second_press_submits_nothing (st : State) (c : Call) :
  snd (handleSubmit st) = Some c ->
  fst (handleSubmit st) = clearFields st
  /\ handleSubmit (fst (handleSubmit st))
     = (setError (Some "Please enter a description") (clearFields st), None).
Proof.
  intros Hc.
  destruct (handleSubmit_Some st c Hc) as (_ & _ & _ & _ & _ & -> & _).
  split; reflexivity.
Qed.

Lemma second_press_submits_nothing_witness :
  let st := mkState "Taxi" "18.5" "Ravi" ["Asha"; "Ravi"] None false in
  snd (handleSubmit (fst (handleSubmit st))) = None.
Proof.
  intros st.
  destruct (second_press_submits_nothing st
              (mkCall "Taxi" (JS.Finite false 185 (-1)) "Ravi"
                      ["Asha"; "Ravi"]) eq_refl) as [_ H].
  now rewrite H.
Defined.

End ExpenseSubmission.

(** ** CreateGroupModal: selecting, removing and creating members *)

Section GroupMembers.
Import CreateGroupModal.

(** X6 (handleSelectMember): after a press on a suggestion the member is
    selected, nothing else joined or left the selection, a
    duplicate-free selection is still duplicate-free, the query is
    cleared and the suggestions are hidden; a second press on the same
    suggestion changes nothing. *)
Theorem select_member_adds_once (member : Member) (st : State) :
  let st' := handleSelectMember member st in
  member_name member ∈ selectedMembers st'
  /\ (forall x, x ∈ selectedMembers st'
                <-> x ∈ selectedMembers st \/ x = member_name member)
  /\ (NoDup (selectedMembers st) -> NoDup (selectedMembers st'))
  /\ searchQuery st' = "" /\ showSuggestions st' = false
  /\ name st' = name st /\ error st' = error st
  /\ handleSelectMember member st' = st'.
Proof.
  unfold handleSelectMember.
  destruct (JS.arrayIncludes (selectedMembers st) (member_name member))
    eqn:Hinc; simpl.
  - rewrite Hinc. simpl. apply arrayIncludes_spec in Hinc.
    split; [exact Hinc |]. split.
    { intros x. split; [tauto | intros [H | ->]; assumption]. }
    repeat split; tauto.
  - assert (Hin : member_name member
                  ∈ (selectedMembers st ++ [member_name member])%list).
    { apply elem_of_app. right. now apply list_elem_of_singleton. }
    rewrite (proj2 (arrayIncludes_spec _ _) Hin). simpl.
    apply arrayIncludes_false in Hinc.
    split; [exact Hin |]. split.
    { intros x. rewrite elem_of_app, list_elem_of_singleton. tauto. }
    split; [| repeat split].
    intros Hnd. apply NoDup_app. split; [exact Hnd |].
    split; [| apply NoDup_singleton].
    intros x Hx Hx'. apply list_elem_of_singleton in Hx' as ->.
    contradiction.
Qed.

(** X7 (handleRemoveMember, with handleSelectMember): a press on the
    cross of a tag removes every occurrence of that member, keeps the
    other members in their order, and touches no other field; removing a
    member right after selecting it gives back the selection it was not
    part of. *)
Theorem remove_member_removes_all (memberToRemove : string) (st : State) :
  let st' := handleRemoveMember memberToRemove st in
  (memberToRemove ∉ selectedMembers st')
  /\ (forall x, x <> memberToRemove ->
        (x ∈ selectedMembers st' <-> x ∈ selectedMembers st))
  /\ sublist (selectedMembers st') (selectedMembers st)
  /\ st' = setSelectedMembers (selectedMembers st') st
  /\ (memberToRemove ∉ selectedMembers st ->
      forall member, member_name member = memberToRemove ->
        selectedMembers
          (handleRemoveMember memberToRemove (handleSelectMember member st))
        = selectedMembers st).
Proof.
  unfold handleRemoveMember. simpl.
  split; [| split; [| split; [| split; [reflexivity |]]]].
  - intros H. apply list_elem_of_filter in H as [Hne _]. congruence.
  - intros x Hx. rewrite list_elem_of_filter. tauto.
  - apply sublist_filter.
  - intros Hout member <-. unfold handleSelectMember.
    rewrite (proj2 (arrayIncludes_false _ _) Hout). simpl.
    now rewrite filter_ne_snoc, filter_ne_absent.
Qed.

Lemma remove_member_removes_all_witness :
  let st := mkState "Flat" ["Asha"; "Ravi"] None "mi" true in
  selectedMembers
    (handleRemoveMember "Mina" (handleSelectMember (mkMember "m3" "Mina") st))
  = ["Asha"; "Ravi"].
Proof.
  intros st.
  apply (proj2 (proj2 (proj2 (proj2 (remove_member_removes_all "Mina" st)))));
    [| reflexivity].
  unfold st. simpl.
  rewrite !not_elem_of_cons. repeat split; try discriminate.
  apply not_elem_of_nil.
Defined.

(** X8 (handleCreateMember): a created member joins the selection and the
    directory at the end, without the duplicate test of
    handleSelectMember: when the server answers with a name that is
    already selected, the selection holds that name twice.  A rejected
    call changes nothing but the error message. *)
Theorem create_member_appends_unchecked
    (create : string -> option Member) (query : string) (m : Modal) :
  match create query with
  | Some newMember =>
      let m' := handleCreateMember create query m in
      selectedMembers (form m')
      = (selectedMembers (form m) ++ [member_name newMember])%list
      /\ allMembers m' = (allMembers m ++ [newMember])%list
      /\ searchQuery (form m') = ""
      /\ (member_name newMember ∈ selectedMembers (form m) ->
          ~ NoDup (selectedMembers (form m')))
  | None =>
      handleCreateMember create query m
      = mkModal (setError (Some "Failed to create member. Please try again.")
                          (form m))
                (allMembers m) (suggestions m)
  end.
Proof.
  unfold handleCreateMember. destruct (create query) as [newMember |];
    [| reflexivity].
  simpl. repeat split.
  intros Hin Hnd. apply NoDup_app in Hnd as (_ & Hdis & _).
  apply (Hdis _ Hin). now apply list_elem_of_singleton.
Qed.

Lemma create_member_appends_unchecked_witness :
  let m := mkModal (mkState "Flat" ["Asha"; "Ravi"] None "ravi " true) [] [] in
  let create := fun _ : string => Some (mkMember "m9" "Ravi") in
  selectedMembers (form (handleCreateMember create "ravi " m))
  = ["Asha"; "Ravi"; "Ravi"]
  /\ ~ NoDup (selectedMembers (form (handleCreateMember create "ravi " m))).
Proof.
  intros m create.
  destruct (create_member_appends_unchecked create "ravi " m)
    as (Hsel & _ & _ & Hdup).
  split; [exact Hsel | apply Hdup].
  apply list_elem_of_In. simpl. tauto.
Defined.

Lemma filter_nil_iff {A} (f : A -> bool) (l : list A) :
  List.filter f l = [] <-> Forall (fun x => f x = false) l.
Proof.
  induction l as [| x l IH]; simpl.
  - split; [constructor | reflexivity].
  - destruct (f x) eqn:Hx.
    + split; [discriminate | intros H].
      apply Forall_cons in H as [H _]. congruence.
    + rewrite IH. split; [now constructor | intros H].
      now apply Forall_cons in H as [_ H].
Qed.

(** X9 (the search effect and the suggestion list): for a query that is
    not blank the suggestions are the known members whose name contains
    the query, case ignored, in directory order; the row that creates a
    member is shown exactly when no known member matches, and never when
    a known member bears the query as its name, case ignored. *)
Theorem create_row_only_without_match (query : string) (m : Modal) :
  blank query = false ->
  let m' := changeSearchQuery query m in
  suggestions m' = List.filter (matchesQuery query) (allMembers m)
  /\ (createRowShown m' = true
      <-> Forall (fun member => matchesQuery query member = false)
                 (allMembers m))
  /\ (forall member, member ∈ allMembers m ->
        JS.toLowerCase (member_name member) = JS.toLowerCase query ->
        createRowShown m' = false)
  /\ selectedMembers (form m') = selectedMembers (form m).
Proof.
  unfold blank. intros Hq. apply negb_false_iff in Hq.
  unfold changeSearchQuery, searchEffect, createRowShown. simpl.
  rewrite Hq. simpl.
  split; [reflexivity |].
  assert (Hnil : JS.isNil (List.filter (matchesQuery query) (allMembers m))
                 = true
                 <-> Forall (fun member => matchesQuery query member = false)
                            (allMembers m)).
  { rewrite <- filter_nil_iff.
    destruct (List.filter (matchesQuery query) (allMembers m)); simpl;
      split; congruence. }
  split; [exact Hnil |]. split; [| reflexivity].
  intros member Hin Heq.
  destruct (JS.isNil (List.filter (matchesQuery query) (allMembers m)))
    eqn:E; [| reflexivity].
  pose proof (proj1 Hnil eq_refl) as HF. rewrite Forall_forall in HF.
  specialize (HF member Hin). unfold matchesQuery in HF.
  rewrite Heq, includes_refl in HF. discriminate HF.
Qed.

Lemma create_row_only_without_match_witness :
  let m := mkModal (mkState "" [] None "" false)
                   [mkMember "m1" "Asha"; mkMember "m2" "Ravi"] [] in
  suggestions (changeSearchQuery "RA" m) = [mkMember "m2" "Ravi"]
  /\ createRowShown (changeSearchQuery "ravi" m) = false.
Proof.
  intros m.
  destruct (create_row_only_without_match "RA" m eq_refl) as (Hs & _).
  destruct (create_row_only_without_match "ravi" m eq_refl)
    as (_ & _ & Hrow & _).
  split; [exact Hs |].
  apply (Hrow (mkMember "m2" "Ravi")); [| reflexivity].
  apply list_elem_of_In. simpl. tauto.
Defined.

(** X10 (the search effect, onFocus and the create row): with a blank
    query the effect hides the suggestions, a focus of the search input
    shows the empty list again and with it the create row, and a press on
    that row sends the blank query to the server as the member's name and
    selects whatever member comes back. *)
Theorem blank_query_offers_create_row
    (create : string -> option Member) (query : string) (m : Modal)
    (newMember : Member) :
  blank query = true ->
  create query = Some newMember ->
  let hidden := changeSearchQuery query m in
  let focused := focusSearch hidden in
  createRowShown hidden = false
  /\ createRowShown focused = true
  /\ selectedMembers (form (pressCreateRow create focused))
     = (selectedMembers (form m) ++ [member_name newMember])%list.
Proof.
  unfold blank. intros Hq Hc. apply negb_true_iff in Hq.
  unfold pressCreateRow, focusSearch, changeSearchQuery, searchEffect,
    createRowShown, handleCreateMember. simpl.
  rewrite Hq. simpl. rewrite Hc. simpl. repeat split.
Qed.

Lemma blank_query_offers_create_row_witness :
  let m := mkModal (mkState "Flat" ["Asha"] None "x" true)
                   [mkMember "m1" "Asha"] [mkMember "m1" "Asha"] in
  let create := fun n : string => Some (mkMember "m7" n) in
  createRowShown (focusSearch (changeSearchQuery "  " m)) = true
  /\ selectedMembers
       (form (pressCreateRow create (focusSearch (changeSearchQuery "  " m))))
     = ["Asha"; "  "].
Proof.
  intros m create.
  destruct (blank_query_offers_create_row create "  " m (mkMember "m7" "  ")
              eq_refl eq_refl) as (_ & Hrow & Hsel).
  split; [exact Hrow | exact Hsel].
Defined.

Lemma group_handleSubmit_Some (st : State) (c : Call) :
  snd (handleSubmit st) = Some c ->
  groupReady st = true
  /\ fst (handleSubmit st)
     = setError None (setSelectedMembers [] (setName "" st))
  /\ c = mkCall (JS.trim (name st)) (selectedMembers st).
Proof.
  unfold handleSubmit, groupReady. rewrite length_lt_2.
  destruct (JS.truthy (JS.trim (name st))); [| discriminate].
  destruct (2 <=? length (selectedMembers st))%nat; [| discriminate].
  simpl. intros [= <-]. repeat split.
Qed.

Lemma group_handleSubmit_ready (st : State) :
  snd (handleSubmit st)
  = if groupReady st
    then Some (mkCall (JS.trim (name st)) (selectedMembers st))
    else None.
Proof.
  unfold handleSubmit, groupReady.
  destruct (Nat.ltb_spec (length (selectedMembers st)) 2),
    (Nat.leb_spec 2 (length (selectedMembers st)));
    try lia; destruct (JS.truthy (JS.trim (name st))); reflexivity.
Qed.

(** X11 (handleSubmit of the group form): a submitted group has a
    non-empty name without surrounding white space and at least two
    entries in its member list; the submission clears the name and the
    selection, so a second press right after it submits nothing and asks
    for a group name. *)
Theorem submitted_group_is_well_formed (st : State) (c : Call) :
  snd (handleSubmit st) = Some c ->
  call_name c <> ""
  /\ JS.trim (call_name c) = call_name c
  /\ (2 <= length (call_members c))%nat
  /\ name (fst (handleSubmit st)) = ""
  /\ selectedMembers (fst (handleSubmit st)) = []
  /\ handleSubmit (fst (handleSubmit st))
     = (setError (Some "Please enter a group name") (fst (handleSubmit st)),
        None).
Proof.
  intros Hc. destruct (group_handleSubmit_Some st c Hc) as (Hr & -> & ->).
  unfold groupReady in Hr. apply andb_true_iff in Hr as [Hn Hl].
  simpl. split; [now apply truthy_nonempty |].
  split; [apply trim_idem |]. split; [now apply Nat.leb_le |].
  repeat split.
Qed.

Lemma submitted_group_is_well_formed_witness :
  let st := mkState "  Flat 4b " ["Asha"; "Ravi"] None "" false in
  snd (handleSubmit st) = Some (mkCall "Flat 4b" ["Asha"; "Ravi"])
  /\ snd (handleSubmit (fst (handleSubmit st))) = None.
Proof.
  intros st. split; [reflexivity |].
  destruct (submitted_group_is_well_formed st
              (mkCall "Flat 4b" ["Asha"; "Ravi"]) eq_refl)
    as (_ & _ & _ & _ & _ & H).
  now rewrite H.
Defined.

End GroupMembers.

(** ** HomeScreen: creating a group and the error state *)

Section Home.
Import HomeScreen.
Context {Group : Type}.

(** X12 (HomeScreen.handleCreateGroup behind CreateGroupModal.handleSubmit):
    a press on "Create Group" reaches the server only with a ready form,
    and then with the trimmed name and the selected members; the group
    list grows by exactly the created group and the modal closes when the
    call resolves; when the form is not ready or the call rejects, the
    group list and the modal stay as they were. *)
Theorem create_group_flow
    (create : string -> list string -> outcome Group)
    (form : CreateGroupModal.State) (st : State Group) :
  let st' := snd (CreateGroupModal.press (handleCreateGroup create) form st) in
  if groupReady form then
    match create (JS.trim (CreateGroupModal.name form))
                 (CreateGroupModal.selectedMembers form) with
    | Fulfilled newGroup =>
        groups st' = (groups st ++ [newGroup])%list
        /\ isCreateModalVisible st' = false
        /\ error st' = error st
    | Failed err =>
        groups st' = groups st
        /\ isCreateModalVisible st' = isCreateModalVisible st
        /\ error st' = Some (messageOr "Failed to create group" err)
    end
  else st' = st.
Proof.
  cbv zeta. unfold CreateGroupModal.press.
  pose proof (group_handleSubmit_ready form) as Hs.
  destruct (CreateGroupModal.handleSubmit form) as [form' call].
  simpl in Hs. subst call.
  destruct (groupReady form); simpl; [| reflexivity].
  unfold handleCreateGroup.
  destruct (create _ _); simpl; repeat split.
Qed.

Lemma step_keeps_error (e : Event Group) (st : State Group) :
  error st <> None -> error (step e st) <> None.
Proof.
  destruct e as [[data | err] | | | create name members]; simpl;
    try (intros H; exact H); try discriminate.
  unfold handleCreateGroup. destruct (create name members); simpl;
    [intros H; exact H | discriminate].
Qed.

Lemma step_success_keeps_error (e : Event Group) (st : State Group) :
  homeEventSucceeds e ->
  isLoading st = false ->
  error (step e st) = error st /\ isLoading (step e st) = false.
Proof.
  destruct e as [[data | err] | | | create name members]; simpl;
    try (intros _ H; split; [reflexivity | exact H]); try contradiction.
  - intros _ _. split; reflexivity.
  - intros [g Hg] H. unfold handleCreateGroup. rewrite Hg. simpl.
    split; [reflexivity | exact H].
Qed.

(** X13 (HomeScreen: fetchGroups, handleCreateGroup and the render
    guards): no handler of the screen resets the error, so an error stays
    set through every later event; and after events whose calls all
    resolve, a successful refetch included, the error message is the same
    and the screen still renders the error text instead of the list. *)
Theorem home_error_is_never_cleared (events : list (Event Group))
    (st : State Group) (message : string) :
  error st = Some message ->
  error (run events st) <> None
  /\ (Forall homeEventSucceeds events ->
      isLoading st = false ->
      JS.truthy message = true ->
      render (run events st) = ErrorView message).
Proof.
  intros He. split.
  - assert (H : error st <> None) by congruence. clear He.
    revert st H. induction events as [| e events IH]; intros st H;
      [exact H |].
    apply IH. now apply step_keeps_error.
  - intros Hs Hl Ht.
    enough (H : error (run events st) = Some message
                /\ isLoading (run events st) = false).
    { destruct H as [H1 H2]. unfold render. now rewrite H2, H1, Ht. }
    revert st He Hl. induction Hs as [| e events He' _ IH]; intros st He Hl;
      [split; assumption |].
    destruct (step_success_keeps_error e st He' Hl) as [H1 H2].
    apply IH; [congruence | exact H2].
Qed.

End Home.

Lemma home_error_is_never_cleared_witness :
  let st := HomeScreen.mkState ["flat"] false (Some "Network request failed")
                               false in
  HomeScreen.render
    (HomeScreen.run [HomeScreen.Focus (Fulfilled ["flat"; "trip"])] st)
  = HomeScreen.ErrorView "Network request failed".
Proof.
  intros st.
  apply (proj2 (home_error_is_never_cleared
                  [HomeScreen.Focus (Fulfilled ["flat"; "trip"])] st
                  "Network request failed" eq_refl)).
  - repeat constructor.
  - reflexivity.
  - reflexivity.
Defined.

(** ** GroupDetailScreen: refreshing, adding and deleting *)

Section GroupScreen.
Import GroupDetailScreen.
Context {Group : Type}.

(** X14 (fetchData): the group and its expense list are replaced
    together, when both requests resolve, or not at all: if either
    request rejects, both keep their earlier value, a value the other
    request resolved with is dropped, and an error is set.  The loading
    flag is cleared in every case. *)
Theorem fetchData_updates_both_or_neither
    (groupData : outcome Group) (expensesData : outcome (list Expense))
    (groupFirst : bool) (st : State Group) :
  let st' := fetchData groupData expensesData groupFirst st in
  isLoading st' = false
  /\ isAddExpenseModalVisible st' = isAddExpenseModalVisible st
  /\ match groupData, expensesData with
     | Fulfilled g, Fulfilled es =>
         group st' = Some g /\ expenses st' = es /\ error st' = error st
     | _, _ =>
         group st' = group st /\ expenses st' = expenses st
         /\ error st' <> None
     end.
Proof.
  unfold fetchData, promiseAll.
  destruct groupData, expensesData; simpl; repeat split; discriminate.
Qed.

(** X15 (handleDeleteExpense): deleting never refreshes the group, so
    the total shown for the group is the one fetched before the delete
    even when the server removed the expense; the expense list changes
    only when the alert was confirmed and both calls resolved, and then
    to the list the server returned; a cancelled alert changes nothing. *)
Theorem delete_never_refreshes_group (confirmed : bool)
    (deleted : outcome unit) (updatedExpenses : outcome (list Expense))
    (st : State Group) :
  let st' := handleDeleteExpense confirmed deleted updatedExpenses st in
  group st' = group st
  /\ isLoading st' = isLoading st
  /\ isAddExpenseModalVisible st' = isAddExpenseModalVisible st
  /\ match confirmed, deleted, updatedExpenses with
     | true, Fulfilled _, Fulfilled es =>
         expenses st' = es /\ error st' = error st
     | true, _, _ => expenses st' = expenses st /\ error st' <> None
     | false, _, _ => st' = st
     end.
Proof.
  unfold handleDeleteExpense.
  destruct confirmed, deleted, updatedExpenses; simpl; repeat split;
    discriminate.
Qed.

(** X16 (handleAddExpense): the modal is closed exactly when the create
    call resolved, whether or not the refresh that follows succeeded; a
    failed refresh then leaves the earlier group and list on screen with
    an error; a rejected create call leaves group, list, loading flag and
    modal as they were and sets an error. *)
Theorem add_expense_closes_modal_on_create
    (created : outcome Expense) (groupData : outcome Group)
    (expensesData : outcome (list Expense)) (groupFirst : bool)
    (st : State Group) :
  let st' := handleAddExpense created groupData expensesData groupFirst st in
  match created with
  | Fulfilled _ =>
      isAddExpenseModalVisible st' = false
      /\ isLoading st' = false
      /\ match groupData, expensesData with
         | Fulfilled g, Fulfilled es =>
             group st' = Some g /\ expenses st' = es /\ error st' = error st
         | _, _ =>
             group st' = group st /\ expenses st' = expenses st
             /\ error st' <> None
         end
  | Failed err =>
      st' = mkState (group st) (expenses st) (isLoading st)
                    (Some (messageOr "Failed to add expense" err))
                    (isAddExpenseModalVisible st)
  end.
Proof.
  unfold handleAddExpense, fetchData, promiseAll.
  destruct created, groupData, expensesData; simpl; repeat split;
    discriminate.
Qed.

Lemma group_step_keeps_error (e : Event Group) (st : State Group) :
  error st <> None -> error (step e st) <> None.
Proof.
  destruct e as [g es gf | | | c g es gf | c d es]; simpl;
    try (intros H; exact H).
  - unfold fetchData, promiseAll. destruct g, es; simpl;
      try discriminate; intros H; exact H.
  - unfold handleAddExpense, fetchData, promiseAll.
    destruct c, g, es; simpl; try discriminate; intros H; exact H.
  - unfold handleDeleteExpense.
    destruct c, d, es; simpl; try discriminate; intros H; exact H.
Qed.

Lemma group_step_success_keeps_error (e : Event Group) (st : State Group) :
  groupEventSucceeds e ->
  isLoading st = false ->
  error (step e st) = error st /\ isLoading (step e st) = false.
Proof.
  destruct e as [g es gf | | | c g es gf | c d es]; simpl.
  - destruct g, es; try contradiction. intros _ _. split; reflexivity.
  - intros _ H. split; [reflexivity | exact H].
  - intros _ H. split; [reflexivity | exact H].
  - destruct c, g, es; try contradiction. intros _ _. split; reflexivity.
  - destruct c, d, es; try contradiction; intros _ H;
      (split; [reflexivity | exact H]).
Qed.

(** X17 (GroupDetailScreen: fetchData, handleAddExpense,
    handleDeleteExpense and the render guards): no handler of the screen
    resets the error, so an error stays set through every later event;
    and after events whose calls all resolve, a successful refetch
    included, the message is the same and the screen still renders the
    error text instead of the group. *)
Theorem group_error_is_never_cleared (events : list (Event Group))
    (st : State Group) (message : string) :
  error st = Some message ->
  error (run events st) <> None
  /\ (Forall groupEventSucceeds events ->
      isLoading st = false ->
      JS.truthy message = true ->
      render (run events st) = ErrorView message).
Proof.
  intros He. split.
  - assert (H : error st <> None) by congruence. clear He.
    revert st H. induction events as [| e events IH]; intros st H;
      [exact H |].
    apply IH. now apply group_step_keeps_error.
  - intros Hs Hl Ht.
    enough (H : error (run events st) = Some message
                /\ isLoading (run events st) = false).
    { destruct H as [H1 H2]. unfold render. now rewrite H2, H1, Ht. }
    revert st He Hl. induction Hs as [| e events He' _ IH]; intros st He Hl;
      [split; assumption |].
    destruct (group_step_success_keeps_error e st He' Hl) as [H1 H2].
    apply IH; [congruence | exact H2].
Qed.

End GroupScreen.

Lemma group_error_is_never_cleared_witness :
  let st := GroupDetailScreen.mkState (Some "flat") [aprilRent] false
              (Some "Failed to delete expense") false in
  let events :=
    [GroupDetailScreen.Focus (Fulfilled "flat")
                             (Fulfilled [aprilRent; mayPower]) true] in
  GroupDetailScreen.expenses (GroupDetailScreen.run events st)
  = [aprilRent; mayPower]
  /\ GroupDetailScreen.render (GroupDetailScreen.run events st)
     = GroupDetailScreen.ErrorView "Failed to delete expense".
Proof.
  intros st events. split; [reflexivity |].
  apply (proj2 (group_error_is_never_cleared events st
                  "Failed to delete expense" eq_refl)).
  - repeat constructor.
  - reflexivity.
  - reflexivity.
Defined.

(** ** The expenses block of the group screen *)

Section ExpensesBlockFacts.
Import GroupDetail.

Variable monthKey : string -> string.
Variable getTime : string -> option Z.

Lemma firstSeen_elem (k : string) (l : list string) :
  k ∈ firstSeen l <-> k ∈ l.
Proof.
  induction l as [| x l IH]; simpl; [reflexivity |].
  rewrite !elem_of_cons, list_elem_of_filter, IH.
  destruct (decide (k = x)); tauto.
Qed.

Lemma firstSeen_snoc (l : list string) (k : string) :
  firstSeen (l ++ [k])
  = if decide (k ∈ l) then firstSeen l else (firstSeen l ++ [k])%list.
Proof.
  induction l as [| x l IH]; simpl.
  - destruct (decide (k ∈ [])) as [H | _]; [| reflexivity].
    now apply elem_of_nil in H.
  - rewrite IH.
    destruct (decide (k ∈ l)) as [Hin | Hout].
    + rewrite decide_True by (apply elem_of_cons; now right). reflexivity.
    + rewrite filter_app.
      destruct (decide (k = x)) as [-> | Hne].
      * rewrite decide_True by (apply elem_of_cons; now left).
        rewrite filter_cons_False by (intros H; now apply H).
        now rewrite filter_nil, app_nil_r.
      * rewrite decide_False
          by (rewrite elem_of_cons; intros [H | H]; contradiction).
        rewrite filter_cons_True by exact Hne. now rewrite filter_nil.
Qed.

Lemma groupExpensesByMonth_keys (expenses : list Expense) :
  map fst (groupExpensesByMonth monthKey expenses)
  = firstSeen (map (fun e => monthKey (createdAt e)) expenses).
Proof.
  induction expenses as [| e l IH] using rev_ind; [reflexivity |].
  rewrite groupExpensesByMonth_snoc, keys_pushTo, map_app, IH. simpl.
  rewrite firstSeen_snoc.
  destruct (getBucket (monthKey (createdAt e))
                      (groupExpensesByMonth monthKey l)) eqn:Hb.
  - rewrite decide_True; [reflexivity |].
    apply firstSeen_elem. rewrite <- IH.
    destruct (decide (monthKey (createdAt e)
                      ∈ map fst (groupExpensesByMonth monthKey l)))
      as [H | H]; [exact H |].
    apply getBucket_None in H. congruence.
  - rewrite decide_False; [reflexivity |].
    rewrite <- firstSeen_elem, <- IH. now apply getBucket_None.
Qed.

(** X18 (groupExpensesByMonth): the grouped object lists every month of
    the input once, in the order in which the months first appear in the
    expense list, and holds under each month the expenses of that month
    in input order. *)
Theorem month_keys_in_first_seen_order (expenses : list Expense) :
  map fst (groupExpensesByMonth monthKey expenses)
  = firstSeen (map (fun e => monthKey (createdAt e)) expenses)
  /\ Forall (fun s => snd s = ofMonth monthKey (fst s) expenses)
            (groupExpensesByMonth monthKey expenses).
Proof.
  split; [apply groupExpensesByMonth_keys |].
  apply Forall_forall. intros [k es] Hin. simpl.
  destruct (groupExpensesByMonth_spec monthKey expenses) as [Hnd Hb].
  pose proof (getBucket_elem _ _ _ Hnd Hin) as Hk. rewrite Hb in Hk.
  destruct (ofMonth monthKey k expenses); [discriminate | congruence].
Qed.

(** X19 (the sort of the month sections): when the Date constructor
    reads none of the month keys, every comparison is NaN and the sort
    moves nothing: the sections are rendered in the order in which the
    months first appear in the expense list. *)
Theorem unparsed_keys_keep_first_seen_order (expenses : list Expense) :
  (forall e, e ∈ expenses -> getTime (monthKey (createdAt e)) = None) ->
  monthSections monthKey getTime expenses
  = groupExpensesByMonth monthKey expenses
  /\ map fst (monthSections monthKey getTime expenses)
     = firstSeen (map (fun e => monthKey (createdAt e)) expenses).
Proof.
  intros Hnone.
  assert (Hs : monthSections monthKey getTime expenses
               = groupExpensesByMonth monthKey expenses).
  { unfold monthSections. apply sortBy_unparsed.
    apply Forall_forall. intros [k es] Hin. simpl.
    pose proof (groupExpensesByMonth_spec monthKey expenses) as [Hnd Hb].
    pose proof (getBucket_elem _ _ _ Hnd Hin) as Hk. rewrite Hb in Hk.
    destruct (ofMonth monthKey k expenses) as [| e es'] eqn:Hf;
      [discriminate |].
    assert (He : e ∈ ofMonth monthKey k expenses)
      by (rewrite Hf; apply elem_of_cons; now left).
    apply list_elem_of_filter in He as [Hkey He]. rewrite <- Hkey.
    now apply Hnone. }
  split; [exact Hs |]. rewrite Hs. apply groupExpensesByMonth_keys.
Qed.

(** X20 (the expenses block): the count in the header is the number of
    expense rows rendered in the month sections; the "No expenses yet"
    text is shown exactly for an empty list, and otherwise there is at
    least one section; rows are keyed by expense id, and the keys of the
    rendered rows are distinct whenever the ids of the list are. *)
Theorem expenses_block_shows_every_expense (expenses : list Expense) :
  match expensesBlock monthKey getTime expenses with
  | NoExpensesYet count => expenses = [] /\ count = 0%nat
  | MonthSections count sections =>
      expenses <> []
      /\ sections <> []
      /\ count = length (flatten sections)
      /\ (NoDup (map (fun e => id e : string) expenses) ->
          NoDup (map (fun e => id e : string) (flatten sections)))
  end.
Proof.
  unfold expensesBlock.
  assert (Hp : flatten (monthSections monthKey getTime expenses)
               ≡ₚ expenses).
  { unfold monthSections.
    rewrite (flatten_perm _ _ (sortBy_perm _ _)).
    apply flatten_groupExpensesByMonth. }
  destruct expenses as [| e l] eqn:He; simpl; [split; reflexivity |].
  rewrite <- He in *. split; [congruence |]. split.
  - intros Hnil. rewrite Hnil in Hp. simpl in Hp.
    apply Permutation_nil in Hp. congruence.
  - split.
    + rewrite (Permutation_length Hp), He. reflexivity.
    + intros Hnd.
      eapply NoDup_Permutation_proper;
        [apply Permutation_map; exact Hp | rewrite He; exact Hnd].
Qed.

End ExpensesBlockFacts.

Lemma unparsed_keys_keep_first_seen_order_witness :
  map fst (GroupDetail.monthSections germanMonthKey (fun _ => None)
             [mayPower; aprilRent; mayPower])
  = ["Mai 2024"; "April 2024"].
Proof.
  apply (proj2 (unparsed_keys_keep_first_seen_order germanMonthKey
                  (fun _ => None) [mayPower; aprilRent; mayPower]
                  (fun _ _ => eq_refl))).
Defined.

Lemma sections_latest_first_when_keys_parse_witness :
  StronglySorted (datedGe englishGetTime)
    (GroupDetail.monthSections englishMonthKey englishGetTime
                               [aprilRent; mayPower; aprilRent])
  /\ map fst (GroupDetail.monthSections englishMonthKey englishGetTime
                                       [aprilRent; mayPower; aprilRent])
     = ["May 2024"; "April 2024"].
Proof.
  split; [| reflexivity].
  apply (sections_latest_first_when_keys_parse englishGetTime englishMonthKey
           [aprilRent; mayPower; aprilRent]).
  repeat constructor; eexists; reflexivity.
Defined.

(** ** The two versions of handleResponse *)

Section HandlerVersions.

(** X22 (the two versions of handleResponse): the handler with the
    guards rejects only responses that the plain one rejects too; where
    the plain one resolves, the guarded one resolves with the same body
    if the response announces JSON and is not a 204, and with an empty
    object otherwise; and the plain handler reports a response that is
    not ok by its status, not by the message of the body. *)
Theorem present_handler_rejects_less (r : Api.Response) :
  ((exists e, Api.handleResponse r = Api.Rejected e) ->
   exists e', ApiV1.handleResponse r = inl e')
  /\ (forall v, ApiV1.handleResponse r = inr v ->
        Api.handleResponse r
        = Api.Resolved (if readsJson r then v else Api.emptyObject))
  /\ (Api.ok r = false ->
      ApiV1.handleResponse r
      = inl (ApiV1.ApiError (Api.status r)
               ("HTTP error! status: " +:+ pretty (Api.status r)))).
Proof.
  unfold ApiV1.handleResponse.
  destruct (Api.ok r) eqn:Hok; simpl.
  - rewrite (handleResponse_ok r Hok).
    split; [| split; [| discriminate]].
    + intros [e He]. destruct (readsJson r); [| discriminate He].
      destruct (Api.jsonBody r); [discriminate He | eexists; reflexivity].
    + intros v Hv. destruct (Api.jsonBody r) as [j |]; [| discriminate Hv].
      injection Hv as <-. now destruct (readsJson r).
  - split; [intros _; eexists; reflexivity |].
    split; [discriminate | reflexivity].
Qed.

Lemma present_handler_rejects_less_witness :
  let deleted := Api.mkResponse 204 None None in
  let missing :=
    Api.mkResponse 404 (Some "application/json")
      (Some (Api.JObj [("message", Api.JStr "Group not found")])) in
  ApiV1.handleResponse deleted = inl ApiV1.JsonRejected
  /\ Api.handleResponse deleted = Api.Resolved Api.emptyObject
  /\ ApiV1.handleResponse missing
     = inl (ApiV1.ApiError 404 "HTTP error! status: 404").
Proof.
  intros deleted missing.
  split; [reflexivity |]. split; [reflexivity |].
  apply (proj2 (proj2 (present_handler_rejects_less missing))).
  reflexivity.
Defined.

End HandlerVersions.
